(** * Context-engine providers: RAGContextInjector and PlaceholderVariableInjector

    A shallow embedding of
      packages/context-engine/src/providers/RAGContextInjector.ts
      packages/context-engine/src/providers/PlaceholderVariableInjector.ts
    followed by the properties of the chunk budgeting step, of the RAG
    injection stage and of the placeholder stage.

    Conventions of the embedding.
    - A JavaScript string is the list of its UTF-16 code units, so that
      [length], [substring] and the regular expressions count what the
      engine counts.
    - A JavaScript number holding a length or a budget is a [Z]; a
      similarity score is a rational [Q] (a finite number: NaN and the
      infinities are outside the model).  Comparisons, [Math.min],
      [Math.max] and the sign of [b - a] are exact on finite doubles;
      sums, quotients and number formatting are not, and are parameters.
    - A call that may throw returns a [Completion].
    - RAGContextInjector.ts calls [log] without importing or declaring
      it: each such call throws a ReferenceError.  Its sibling declares
      [log] with [debug], a sink without effect on the values computed:
      there the calls are left out, the evaluation of their arguments,
      which can throw, is not. *)

From Stdlib Require Import ZArith QArith List Sorted Permutation Ascii String.
From Stdlib Require Import Qminmax DecimalString Lia Lqa.
From stdpp Require Import gmap strings list.
Import ListNotations.
Close Scope Q_scope.
Local Open Scope Z_scope.

(** ** JavaScript strings and the built-ins the two providers call *)

Module JS.

(** UTF-16 code units. *)
Definition jsstring := list N.

(** An ASCII literal of the source as a JavaScript string. *)
Definition js (s : string) : jsstring :=
  map N_of_ascii (list_ascii_of_string s).

(** [s.length] *)
Definition length (s : jsstring) : Z := Z.of_nat (List.length s).

Definition clamp (len n : Z) : Z := Z.min (Z.max n 0) len.

(** [s.substring(a, b)]: both ends are clamped to [0, s.length] and
    swapped when out of order. *)
Definition substring (s : jsstring) (a b : Z) : jsstring :=
  let a' := clamp (length s) a in
  let b' := clamp (length s) b in
  let from := Z.min a' b' in
  let to := Z.max a' b' in
  firstn (Z.to_nat (to - from)) (skipn (Z.to_nat from) s).

Definition eqb (s t : jsstring) : bool := bool_decide (s = t).

(** White space and line terminators, the code units [trim] strips. *)
Definition isTrimmable (c : N) : bool :=
  match c with
  | 9 | 10 | 11 | 12 | 13 | 32 | 160 | 5760
  | 8192 | 8193 | 8194 | 8195 | 8196 | 8197 | 8198 | 8199 | 8200 | 8201 | 8202
  | 8232 | 8233 | 8239 | 8287 | 12288 | 65279 => true
  | _ => false
  end%N.

Fixpoint trimStart (s : jsstring) : jsstring :=
  match s with
  | c :: s' => if isTrimmable c then trimStart s' else s
  | [] => []
  end.

Definition trimEnd (s : jsstring) : jsstring := rev (trimStart (rev s)).

(** [s.trim()] *)
Definition trim (s : jsstring) : jsstring := trimEnd (trimStart s).

(** [parts.join(sep)] *)
Fixpoint join (sep : jsstring) (parts : list jsstring) : jsstring :=
  match parts with
  | [] => []
  | [p] => p
  | p :: rest => p ++ sep ++ join sep rest
  end.

(** Decimal digits of a natural number, as in a template literal. *)
Definition ofN (n : N) : jsstring :=
  js (NilEmpty.string_of_uint (N.to_uint n)).

Definition ofNat (n : nat) : jsstring := ofN (N.of_nat n).

End JS.

Export JS (jsstring, js).

(** ** Types of the pipeline ([../types], [../base/BaseProvider]) *)

(** A retrieved chunk: the two fields the injector reads, and the other
    fields it passes through when it copies a chunk. *)
Record RetrievalChunk := mkChunk {
  content : jsstring;
  similarity : Q;
  passthrough : list (string * jsstring)
}.

Record Message := mkMessage {
  msg_id : jsstring;
  role : jsstring;
  msg_content : jsstring
}.

(** A number that need not be finite: what [Math.min], [Math.max] and a
    division return. *)
Inductive JSNumber :=
| Finite (q : Q)
| PosInfinity
| NegInfinity
| NaN.

(** The [metadata.ragContext] entry written by the RAG injector. *)
Record RAGMetadata := mkRAGMetadata {
  chunksCount : Z;
  totalContextLength : Z;
  meta_queryId : option jsstring;
  meta_rewriteQuery : option jsstring;
  meta_minSimilarity : JSNumber;
  meta_maxSimilarity : JSNumber;
  meta_avgSimilarity : JSNumber
}.

(** Values of the open [metadata] map. *)
Inductive MetaValue :=
| MNumber (n : Z)
| MString (s : jsstring)
| MStrings (l : list jsstring)
| MRagContext (r : RAGMetadata).

Record PipelineContext := mkContext {
  messages : list Message;
  metadata : gmap string MetaValue;
  executed : bool
}.

(** Modelled from the spec: [BaseProvider.cloneContext] is not among the
    sources; the spec has every stage work on a deep clone of the context
    it receives.  On immutable values the clone is the value itself. *)
Definition cloneContext (ctx : PipelineContext) : PipelineContext := ctx.

(** Modelled from the spec: [BaseProvider.markAsExecuted] is not among the
    sources; the spec has it return the context marked executed, an
    idempotent flag the host inspects. *)
Definition markAsExecuted (ctx : PipelineContext) : PipelineContext :=
  {| messages := messages ctx; metadata := metadata ctx; executed := true |}.

(** ** Calls that throw *)

(** A thrown value, as far as the providers look at it: a catch block
    that logs it converts it to a string, which gives a text or throws
    in turn (a Symbol, an object whose [toString] throws). *)
Inductive Thrown :=
| Printable (text : jsstring)
| Unprintable (raised : Thrown).

(** Outcome of a call that may throw. *)
Inductive Completion (A : Type) :=
| Normal (a : A)
| Throw (e : Thrown).
Arguments Normal {A} a.
Arguments Throw {A} e.

Definition bind {A B : Type} (c : Completion A) (k : A -> Completion B)
    : Completion B :=
  match c with
  | Normal a => k a
  | Throw e => Throw e
  end.

Notation "'let*' x ':=' c 'in' k" := (bind c (fun x => k))
  (at level 10, x name, c at level 100, k at level 200).

(** ** RAGContextInjector.ts *)

Module RAGContextInjector.

Record RAGContextConfig := mkConfig {
  chunks : list RetrievalChunk;
  rewriteQuery : option jsstring;
  queryId : option jsstring;
  maxContextLength : option Z;
  minSimilarity : option Q;
  sortBySimilarity : option bool
}.

(** [{...chunk, content: c}] *)
Definition withContent (chunk : RetrievalChunk) (c : jsstring) : RetrievalChunk :=
  {| content := c; similarity := similarity chunk; passthrough := passthrough chunk |}.

(** The loop of [truncateByLength], with [totalLength] and [result]
    threaded; [break] ends the recursion. *)
Fixpoint truncateLoop (chunks : list RetrievalChunk) (maxLength totalLength : Z)
    (result : list RetrievalChunk) : list RetrievalChunk :=
  match chunks with
  | [] => result
  | chunk :: rest =>
      let chunkLength := JS.length (content chunk) in
      if totalLength + chunkLength <=? maxLength then
        truncateLoop rest maxLength (totalLength + chunkLength) (result ++ [chunk])
      else
        let remainingLength := maxLength - totalLength in
        if 100 <? remainingLength then
          result ++ [withContent chunk
                       (JS.substring (content chunk) 0 remainingLength ++ js "...")]
        else result
  end.

Definition truncateByLength (chunks : list RetrievalChunk) (maxLength : Z)
    : list RetrievalChunk :=
  truncateLoop chunks maxLength 0 [].

(** [Array.prototype.sort(comparefn)]: a stable sort (ECMAScript 2019);
    for a consistent comparator its result is the one of a stable
    insertion, [a] going before [b] when [comparefn a b <= 0]. *)
Section ArraySort.
Context {A : Type} (comparefn : A -> A -> Q).

Fixpoint sortInsert (a : A) (l : list A) : list A :=
  match l with
  | [] => [a]
  | b :: l' =>
      if Qle_bool (comparefn a b) 0 then a :: b :: l'
      else b :: sortInsert a l'
  end.

Fixpoint sort (l : list A) : list A :=
  match l with
  | [] => []
  | a :: l' => sortInsert a (sort l')
  end.
End ArraySort.

(** [(a, b) => b.similarity - a.similarity] *)
Definition bySimilarityDesc (a b : RetrievalChunk) : Q :=
  (similarity b - similarity a)%Q.

(** Truthiness of an optional number: [undefined] and [0] are falsy. *)
Definition truthyNumber (n : option Z) : option Z :=
  match n with
  | Some m => if m =? 0 then None else Some m
  | None => None
  end.

(** [log] is neither imported nor declared in this file: resolving the
    identifier throws, before any argument is looked at.  The same holds
    for [log.extend('warn')]. *)
Definition logIsNotDefined : Thrown :=
  Printable (js "ReferenceError: log is not defined").

Definition log : Completion unit := Throw logIsNotDefined.

Definition processRetrievalChunks (config : RAGContextConfig)
    (chunks : list RetrievalChunk) : Completion (list RetrievalChunk) :=
  let processedChunks := chunks in
  let* processedChunks :=
    match minSimilarity config with
    | Some threshold =>
        let processedChunks :=
          List.filter (fun chunk => Qle_bool threshold (similarity chunk))
            processedChunks in
        let* _ := log in
        Normal processedChunks
    | None => Normal processedChunks
    end in
  let* processedChunks :=
    match sortBySimilarity config with
    | Some false => Normal processedChunks
    | _ =>
        let processedChunks := sort bySimilarityDesc processedChunks in
        let* _ := log in
        Normal processedChunks
    end in
  let* processedChunks :=
    match truthyNumber (maxContextLength config) with
    | Some maxLength =>
        let processedChunks := truncateByLength processedChunks maxLength in
        let* _ := log in
        Normal processedChunks
    | None => Normal processedChunks
    end in
  Normal processedChunks.

(** [findLastUserMessage]: the loop from the last index down to 0.  The
    message object it returns is the one stored in the array, so the
    model returns its index. *)
Fixpoint findLastUserFrom (messages : list Message) (n : nat)
    : option (nat * Message) :=
  match n with
  | O => None
  | S i =>
      match messages !! i with
      | Some m =>
          if JS.eqb (role m) (js "user") then Some (i, m)
          else findLastUserFrom messages i
      | None => findLastUserFrom messages i
      end
  end.

Definition findLastUserMessage (messages : list Message) : option (nat * Message) :=
  findLastUserFrom messages (List.length messages).

(** The literals of [buildRAGContext], as UTF-16 code units. *)
Definition preamble : jsstring :=
  [20197; 19979; 26159; 30456; 20851; 30340; 32972; 26223; 20449; 24687;
   65292; 35831; 22522; 20110; 36825; 20123; 20449; 24687; 22238; 31572;
   29992; 25143; 30340; 38382; 39064; 65306]%N.
Definition refOpen : jsstring := [91; 21442; 32771; 36164; 26009; 32]%N.
Definition refMid : jsstring := [93; 32; 40; 30456; 20284; 24230; 58; 32]%N.
Definition refClose : jsstring := [37; 41]%N.
Definition rewriteHead : jsstring :=
  [29992; 25143; 26597; 35810; 32463; 36807; 37325; 20889; 20248; 21270; 65306]%N.
Definition rewriteBody : jsstring :=
  [21407; 22987; 26597; 35810; 32; 45; 62; 32; 20248; 21270; 26597; 35810; 58; 32]%N.
Definition closing : jsstring :=
  [35831; 22522; 20110; 20197; 19978; 21442; 32771; 36164; 26009; 22238;
   31572; 29992; 25143; 30340; 38382; 39064; 12290; 22914; 26524; 21442;
   32771; 36164; 26009; 20013; 27809; 26377; 30456; 20851; 20449; 24687;
   65292; 35831; 26126; 30830; 35828; 26126; 12290]%N.

(** [Math.min(...xs)] and [Math.max(...xs)]; on no argument they are
    [Infinity] and [-Infinity]. *)
Definition Math_min (xs : list Q) : JSNumber :=
  match xs with
  | [] => PosInfinity
  | x :: rest => Finite (fold_left Qmin rest x)
  end.

Definition Math_max (xs : list Q) : JSNumber :=
  match xs with
  | [] => NegInfinity
  | x :: rest => Finite (fold_left Qmax rest x)
  end.

(** What [getChunksStats] returns when there are chunks. *)
Record ChunksStats := mkChunksStats {
  stats_count : Z;
  stats_totalLength : Z;
  stats_avgLength : JSNumber;
  stats_minSimilarity : JSNumber;
  stats_maxSimilarity : JSNumber;
  stats_avgSimilarity : JSNumber
}.

Section Provider.
(** [(x * 100).toFixed(1)] as the engine computes it: the text of the
    double nearest to the product given. *)
Variable toFixed1 : Q -> jsstring.
(** [xs.reduce((sum, x) => sum + x, 0) / xs.length] on doubles, for the
    similarities and for the lengths. *)
Variable average : list Q -> JSNumber.
Variable averageLength : list Z -> JSNumber.

(** The three parts one chunk adds in [chunks.forEach]. *)
Definition chunkParts (chunk : RetrievalChunk) (index : nat) : list jsstring :=
  [ refOpen ++ JS.ofNat (index + 1) ++ refMid
      ++ toFixed1 (similarity chunk * 100)%Q ++ refClose;
    JS.trim (content chunk);
    [] ].

Fixpoint forEachChunk (chunks : list RetrievalChunk) (index : nat) : list jsstring :=
  match chunks with
  | [] => []
  | chunk :: rest => chunkParts chunk index ++ forEachChunk rest (S index)
  end.

Definition buildRAGContext (config : RAGContextConfig)
    (chunks : list RetrievalChunk) : jsstring :=
  let contextParts := [preamble; []] in
  let contextParts := contextParts ++ forEachChunk chunks 0 in
  let contextParts :=
    match rewriteQuery config with
    | Some (c :: q) => contextParts ++ [rewriteHead; rewriteBody ++ c :: q; []]
    | _ => contextParts
    end in
  let contextParts := contextParts ++ [closing] in
  JS.join (js (String (ascii_of_nat 10) EmptyString)) contextParts.

Definition injectRAGContext (originalContent ragContext : jsstring) : jsstring :=
  JS.trim (JS.join (js (String (ascii_of_nat 10) EmptyString))
             [originalContent; []; ragContext]).

Definition ragMetadata (config : RAGContextConfig)
    (processedChunks : list RetrievalChunk) (ragContext : jsstring) : RAGMetadata :=
  {| chunksCount := Z.of_nat (List.length processedChunks);
     totalContextLength := JS.length ragContext;
     meta_queryId := queryId config;
     meta_rewriteQuery := rewriteQuery config;
     meta_minSimilarity := Math_min (map similarity processedChunks);
     meta_maxSimilarity := Math_max (map similarity processedChunks);
     meta_avgSimilarity := average (map similarity processedChunks) |}.

Definition doProcess (config : RAGContextConfig) (context : PipelineContext)
    : Completion PipelineContext :=
  let clonedContext := cloneContext context in
  match chunks config with
  | [] =>
      let* _ := log in
      Normal (markAsExecuted clonedContext)
  | _ :: _ =>
      let* processedChunks := processRetrievalChunks config (chunks config) in
      match processedChunks with
      | [] =>
          let* _ := log in
          Normal (markAsExecuted clonedContext)
      | _ :: _ =>
          match findLastUserMessage (messages clonedContext) with
          | None =>
              let* _ := log in
              Normal (markAsExecuted clonedContext)
          | Some (i, lastUserMessage) =>
              let ragContext := buildRAGContext config processedChunks in
              let updatedContent :=
                injectRAGContext (msg_content lastUserMessage) ragContext in
              let lastUserMessage' :=
                {| msg_id := msg_id lastUserMessage;
                   role := role lastUserMessage;
                   msg_content := updatedContent |} in
              let clonedContext :=
                {| messages := <[i := lastUserMessage']> (messages clonedContext);
                   metadata :=
                     <["ragContext" :=
                         MRagContext (ragMetadata config processedChunks ragContext)]>
                       (metadata clonedContext);
                   executed := executed clonedContext |} in
              let* _ := log in
              Normal (markAsExecuted clonedContext)
          end
      end
  end.

(** [getChunksStats]: [null] without chunks, else the figures of the
    configured chunks, before any budgeting. *)
Definition getChunksStats (config : RAGContextConfig) : option ChunksStats :=
  match chunks config with
  | [] => None
  | _ :: _ =>
      let similarities := map similarity (chunks config) in
      let lengths := map (fun c => JS.length (content c)) (chunks config) in
      Some {| stats_count := Z.of_nat (List.length (chunks config));
              stats_totalLength := fold_left Z.add lengths 0;
              stats_avgLength := averageLength lengths;
              stats_minSimilarity := Math_min similarities;
              stats_maxSimilarity := Math_max similarities;
              stats_avgSimilarity := average similarities |}
  end.

(** [preview]: the block that would be injected. *)
Definition preview (config : RAGContextConfig) : Completion jsstring :=
  let* processedChunks := processRetrievalChunks config (chunks config) in
  Normal (buildRAGContext config processedChunks).
End Provider.

End RAGContextInjector.

(** ** PlaceholderVariableInjector.ts *)

Module PlaceholderVariableInjector.

(** Values of the variable bag ([Record<string, any>]): [undefined],
    [null], booleans and strings; any other value (a number, an object,
    a function, a symbol) is [VOther], of which the model follows the
    identity only. *)
Inductive JSValue :=
| VUndefined
| VNull
| VBoolean (b : bool)
| VString (s : jsstring)
| VOther (id : N).

(** The own keys of the bag, a plain object, in the order of
    [Object.keys], with their values. *)
Definition VariableBag := list (jsstring * JSValue).

Definition keys (variables : VariableBag) : list jsstring := map fst variables.

Fixpoint lookupVariable (name : jsstring) (variables : VariableBag) : option JSValue :=
  match variables with
  | [] => None
  | (k, v) :: rest => if JS.eqb k name then Some v else lookupVariable name rest
  end.

(** *** The regular expressions

    The three patterns have one shape: an opening delimiter, [.+?] and a
    closing delimiter.  Without the [s] flag [.] is any code unit but a
    line terminator. *)

Definition isLineTerminator (c : N) : bool :=
  match c with
  | 10 | 13 | 8232 | 8233 => true
  | _ => false
  end%N.

Fixpoint stripPrefix (p s : jsstring) : option jsstring :=
  match p, s with
  | [], _ => Some s
  | a :: p', b :: s' => if N.eqb a b then stripPrefix p' s' else None
  | _ :: _, [] => None
  end.

(** [.+?] followed by [close]: the shortest non-empty run of code units,
    none a line terminator, that [close] follows.  Returns the run and
    what is left after [close]. *)
Fixpoint lazyUntil (close s acc : jsstring) : option (jsstring * jsstring) :=
  match s with
  | [] => None
  | c :: s' =>
      if isLineTerminator c then None
      else match stripPrefix close s' with
           | Some rest => Some (acc ++ [c], rest)
           | None => lazyUntil close s' (acc ++ [c])
           end
  end.

(** A match of [open (.+?) close] that begins at the head of [s]. *)
Definition matchHere (open close s : jsstring) : option (jsstring * jsstring) :=
  match stripPrefix open s with
  | Some s' => lazyUntil close s' []
  | None => None
  end.

(** [pattern.test(text)] for a pattern without the [g] flag: a match
    beginning anywhere. *)
Fixpoint test (open close text : jsstring) : bool :=
  match matchHere open close text with
  | Some _ => true
  | None =>
      match text with
      | [] => false
      | _ :: text' => test open close text'
      end
  end.

Definition interpolateOpen : jsstring := js "{{".
Definition interpolateClose : jsstring := js "}}".
Definition escapeOpen : jsstring := js "{{{".
Definition escapeClose : jsstring := js "}}}".
Definition evaluateOpen : jsstring := js "{%".
Definition evaluateClose : jsstring := js "%}".

(** [hasPlaceholders]: the empty string is falsy; [content] is a string,
    so the [typeof] test always passes. *)
Definition hasPlaceholders (text : jsstring) : bool :=
  match text with
  | [] => false
  | _ :: _ =>
      existsb (fun pattern : jsstring * jsstring => test pattern.1 pattern.2 text)
        [ (interpolateOpen, interpolateClose);
          (escapeOpen, escapeClose);
          (evaluateOpen, evaluateClose) ]
  end.

(** *** lodash's [template]

    [template(text, {interpolate, escape, evaluate})] scans [text] with
    the single expression [escape|interpolate|($^)|evaluate|$] and the
    [g] flag: at the leftmost position where an alternative matches, the
    first alternative that matches there wins.  Each match closes the
    text since the previous one and adds its snippet to the source of the
    compiled function. *)
Inductive Token :=
| TText (s : jsstring)
| TEscape (expr : jsstring)
| TInterpolate (expr : jsstring)
| TEvaluate (code : jsstring).

(** The alternatives tried at one position, in the order of the
    expression; [($^)] never matches inside a non-empty text. *)
Definition delimiterHere (s : jsstring) : option (Token * jsstring) :=
  match matchHere escapeOpen escapeClose s with
  | Some (e, rest) => Some (TEscape e, rest)
  | None =>
      match matchHere interpolateOpen interpolateClose s with
      | Some (e, rest) => Some (TInterpolate e, rest)
      | None =>
          match matchHere evaluateOpen evaluateClose s with
          | Some (e, rest) => Some (TEvaluate e, rest)
          | None => None
          end
      end
  end.

(** The scan: [text] is the pending text since the last match.  The
    recursion is on a bound of the remaining length, which every step
    lowers. *)
Fixpoint scan (fuel : nat) (s text : jsstring) : list Token :=
  match fuel with
  | O => [TText (text ++ s)]
  | S fuel' =>
      match delimiterHere s with
      | Some (tok, rest) => TText text :: tok :: scan fuel' rest []
      | None =>
          match s with
          | [] => [TText text]
          | c :: s' => scan fuel' s' (text ++ [c])
          end
      end
  end.

Definition tokenize (text : jsstring) : list Token :=
  scan (S (List.length text)) text [].

(** [String(value)], where the model knows the value. *)
Definition toString (v : JSValue) : option jsstring :=
  match v with
  | VUndefined => Some (js "undefined")
  | VNull => Some (js "null")
  | VBoolean true => Some (js "true")
  | VBoolean false => Some (js "false")
  | VString s => Some s
  | VOther _ => None
  end.

(** lodash's [escape]: the five characters of [htmlEscapes]. *)
Definition escapeHtmlChar (c : N) : jsstring :=
  match c with
  | 38 => js "&amp;"
  | 60 => js "&lt;"
  | 62 => js "&gt;"
  | 34 => js "&quot;"
  | 39 => js "&#39;"
  | _ => [c]
  end%N.

Definition escape (v : JSValue) : option jsstring :=
  match v with
  | VUndefined | VNull => Some []
  | _ => option_map (fun s => concat (map escapeHtmlChar s)) (toString v)
  end.

(** [(__t = (expr)) == null ? '' : __t], appended to a string. *)
Definition interpolated (v : JSValue) : option jsstring :=
  match v with
  | VUndefined | VNull => Some []
  | _ => toString v
  end.

(** The compiled function is [with (obj) { __p += ... }] around the
    snippets: inside it every identifier, the function's own [__p],
    [__e] and [__t] included, is looked up in the bag first.  What
    follows singles out the templates whose result does not depend on the
    engine: the bag binds none of these three names, no marker is an
    [evaluate] one, and each expression is a plain identifier that the
    bag binds to a value the model prints. *)
Definition internalNames : list jsstring := [js "__p"; js "__e"; js "__t"].

Definition bindsInternal (variables : VariableBag) : bool :=
  existsb (fun k => existsb (JS.eqb k) internalNames) (keys variables).

Definition isLetter (c : N) : bool :=
  ((65 <=? c) && (c <=? 90) || (97 <=? c) && (c <=? 122))%N.

(** The words of letters that are not identifiers, or not everywhere. *)
Definition reservedWords : list jsstring :=
  map js
    [ "break"; "case"; "catch"; "class"; "const"; "continue"; "debugger";
      "default"; "delete"; "do"; "else"; "enum"; "export"; "extends";
      "false"; "finally"; "for"; "function"; "if"; "import"; "in";
      "instanceof"; "new"; "null"; "return"; "super"; "switch"; "this";
      "throw"; "true"; "try"; "typeof"; "var"; "void"; "while"; "with";
      "yield"; "let"; "static"; "implements"; "interface"; "package";
      "private"; "protected"; "public"; "await"; "async"; "of" ]%string.

Definition isPlainIdentifier (expr : jsstring) : bool :=
  match expr with
  | [] => false
  | _ :: _ => forallb isLetter expr && negb (existsb (JS.eqb expr) reservedWords)
  end.

Definition plainValue (expr : jsstring) (variables : VariableBag) : option JSValue :=
  if isPlainIdentifier expr then lookupVariable expr variables else None.

(** The text such a compiled function returns: [__p] grows snippet by
    snippet. *)
Fixpoint renderPlain (tokens : list Token) (variables : VariableBag) (p : jsstring)
    : option jsstring :=
  match tokens with
  | [] => Some p
  | TText s :: rest => renderPlain rest variables (p ++ s)
  | TEscape e :: rest =>
      match plainValue e variables with
      | Some v =>
          match escape v with
          | Some s => renderPlain rest variables (p ++ s)
          | None => None
          end
      | None => None
      end
  | TInterpolate e :: rest =>
      match plainValue e variables with
      | Some v =>
          match interpolated v with
          | Some s => renderPlain rest variables (p ++ s)
          | None => None
          end
      | None => None
      end
  | TEvaluate _ :: _ => None
  end.

Section Provider.
(** The engine compiling and running the function lodash generates for
    these tokens, on the live bag: the text it returns or the value it
    throws, and the bag as the run leaves it. *)
Variable runCompiled :
  list Token -> VariableBag -> Completion jsstring * VariableBag.

(** [template(text, options)(this.variables)] *)
Definition template (text : jsstring) (variables : VariableBag)
    : Completion jsstring * VariableBag :=
  let tokens := tokenize text in
  if bindsInternal variables then runCompiled tokens variables
  else
    match renderPlain tokens variables [] with
    | Some p => (Normal p, variables)
    | None => runCompiled tokens variables
    end.

(** The callback of [messages.map], with the two counters it updates and
    the bag threaded as state.  The catch block counts the error and
    logs it, which converts the thrown value to a string. *)
Definition processMessage (message : Message) (counts : nat * nat)
    (variables : VariableBag)
    : Completion (Message * (nat * nat)) * VariableBag :=
  let '(processedCount, errorCount) := counts in
  let originalContent := msg_content message in
  if negb (hasPlaceholders originalContent) then (Normal (message, counts), variables)
  else
    match template originalContent variables with
    | (Normal processedContent, variables') =>
        let processedCount :=
          if negb (JS.eqb processedContent originalContent)
          then S processedCount else processedCount in
        (Normal ({| msg_id := msg_id message; role := role message;
                    msg_content := processedContent |},
                 (processedCount, errorCount)), variables')
    | (Throw error, variables') =>
        let errorCount := S errorCount in
        match error with
        | Printable _ => (Normal (message, (processedCount, errorCount)), variables')
        | Unprintable raised => (Throw raised, variables')
        end
    end.

Fixpoint mapMessages (messages : list Message) (counts : nat * nat)
    (variables : VariableBag)
    : Completion (list Message * (nat * nat)) * VariableBag :=
  match messages with
  | [] => (Normal ([], counts), variables)
  | message :: rest =>
      match processMessage message counts variables with
      | (Normal (message', counts'), variables') =>
          match mapMessages rest counts' variables' with
          | (Normal (rest', counts''), variables'') =>
              (Normal (message' :: rest', counts''), variables'')
          | (Throw e, variables'') => (Throw e, variables'')
          end
      | (Throw e, variables') => (Throw e, variables')
      end
  end.

(** [doProcess]: what the run resolves to or is rejected with, and the
    bag of the instance afterwards. *)
Definition doProcess (variables : VariableBag) (context : PipelineContext)
    : Completion PipelineContext * VariableBag :=
  let clonedContext := cloneContext context in
  match keys variables with
  | [] => (Normal (markAsExecuted clonedContext), variables)
  | _ :: _ =>
      match mapMessages (messages clonedContext) (O, O) variables with
      | (Normal (messages', (processedCount, errorCount)), variables') =>
          (Normal
             (markAsExecuted
                {| messages := messages';
                   metadata :=
                     <["availableVariables" := MStrings (keys variables')]>
                       (<["placeholderErrors" := MNumber (Z.of_nat errorCount)]>
                          (<["placeholdersProcessed" :=
                               MNumber (Z.of_nat processedCount)]>
                             (metadata clonedContext)));
                   executed := executed clonedContext |}),
           variables')
      | (Throw e, variables') => (Throw e, variables')
      end
  end.

(** What [preview] returns. *)
Record Preview := mkPreview {
  original : jsstring;
  processed : jsstring;
  hasChanges : bool
}.

(** [preview(text)]: the expansion of one text, the text itself when it
    has no marker or when the expansion throws; its catch block looks at
    nothing. *)
Definition preview (variables : VariableBag) (text : jsstring)
    : Preview * VariableBag :=
  if negb (hasPlaceholders text) then
    ({| original := text; processed := text; hasChanges := false |}, variables)
  else
    match template text variables with
    | (Normal processed', variables') =>
        ({| original := text; processed := processed';
            hasChanges := negb (JS.eqb processed' text) |}, variables')
    | (Throw _, variables') =>
        ({| original := text; processed := text; hasChanges := false |}, variables')
    end.
End Provider.

(** The bag is a plain object.  [variables[key] = value] overwrites the
    value of an own key in place.  A new key that is an array index (a
    canonical numeric string below 2^32 - 1) takes its place among the
    array indices, which [Object.keys] lists first, in ascending order;
    any other new key goes last; [__proto__] is no new own key (the
    assignment reaches the accessor of [Object.prototype]).
    [delete variables[key]] removes an own key. *)
Definition isDigit (c : N) : bool := ((48 <=? c) && (c <=? 57))%N.

Definition arrayIndex (key : jsstring) : option N :=
  match key with
  | [] => None
  | [48%N] => Some 0%N
  | d :: rest =>
      if isDigit d && negb (N.eqb d 48) && forallb isDigit rest then
        let n := fold_left (fun acc c => acc * 10 + (c - 48))%N key 0%N in
        if (n <=? 4294967294)%N then Some n else None
      else None
  end.

Fixpoint overwrite (key : jsstring) (value : JSValue) (variables : VariableBag)
    : VariableBag :=
  match variables with
  | [] => []
  | (k, v) :: rest =>
      if JS.eqb k key then (k, value) :: rest
      else (k, v) :: overwrite key value rest
  end.

Fixpoint insertIndex (n : N) (key : jsstring) (value : JSValue)
    (variables : VariableBag) : VariableBag :=
  match variables with
  | [] => [(key, value)]
  | (k, v) :: rest =>
      match arrayIndex k with
      | Some m =>
          if (m <? n)%N then (k, v) :: insertIndex n key value rest
          else (key, value) :: (k, v) :: rest
      | None => (key, value) :: (k, v) :: rest
      end
  end.

Definition addVariable (key : jsstring) (value : JSValue) (variables : VariableBag)
    : VariableBag :=
  if existsb (JS.eqb key) (keys variables) then overwrite key value variables
  else if JS.eqb key (js "__proto__") then variables
  else
    match arrayIndex key with
    | Some n => insertIndex n key value variables
    | None => variables ++ [(key, value)]
    end.

Definition removeVariable (key : jsstring) (variables : VariableBag) : VariableBag :=
  List.filter (fun kv : jsstring * JSValue => negb (JS.eqb kv.1 key)) variables.

Definition clearVariables (variables : VariableBag) : VariableBag := [].

(** The loop [while ((match = pattern.exec(text)) !== null)] on a
    pattern with the [g] flag: each match is searched from the end of the
    previous one, and its group is collected.  The recursion is on a
    bound of the remaining length. *)
Fixpoint execAll (fuel : nat) (open close s : jsstring) : list jsstring :=
  match fuel with
  | O => []
  | S fuel' =>
      match matchHere open close s with
      | Some (captured, rest) => captured :: execAll fuel' open close rest
      | None =>
          match s with
          | [] => []
          | _ :: s' => execAll fuel' open close s'
          end
      end
  end.

(** [[...new Set(placeholders)]]: the first occurrence of each string,
    in the order of insertion. *)
Fixpoint dedupe (seen l : list jsstring) : list jsstring :=
  match l with
  | [] => []
  | x :: l' =>
      if existsb (JS.eqb x) seen then dedupe seen l'
      else x :: dedupe (x :: seen) l'
  end.

(** [extractPlaceholders] *)
Definition extractPlaceholders (text : jsstring) : list jsstring :=
  match text with
  | [] => []
  | _ :: _ =>
      let placeholders :=
        concat (map (fun pattern : jsstring * jsstring =>
                       map JS.trim
                         (execAll (S (List.length text)) pattern.1 pattern.2 text))
                  [ (interpolateOpen, interpolateClose);
                    (escapeOpen, escapeClose);
                    (evaluateOpen, evaluateClose) ]) in
      dedupe [] placeholders
  end.

End PlaceholderVariableInjector.

(** ** Vocabulary of the properties *)

Module Spec.

(** Total content length of a chunk list: the sum of [content.length]. *)
Definition totalContentLength (chunks : list RetrievalChunk) : Z :=
  fold_right (fun chunk acc => JS.length (content chunk) + acc) 0 chunks.

(** Descending order of similarity. *)
Definition descending (a b : RetrievalChunk) : Prop :=
  (similarity b <= similarity a)%Q.

(** The chunks of one similarity, in the order of the list. *)
Definition withSimilarity (s : Q) (chunks : list RetrievalChunk) : list RetrievalChunk :=
  List.filter (fun chunk => Qeq_bool (similarity chunk) s) chunks.

(** A text contains a marker: the opening delimiter, at least one code
    unit, none a line terminator, and the closing delimiter. *)
Definition containsMarker (open close text : jsstring) : Prop :=
  exists pre mid post,
    text = pre ++ open ++ mid ++ close ++ post /\
    mid <> [] /\
    Forall (fun c => PlaceholderVariableInjector.isLineTerminator c = false) mid.

(** No threshold, the sort switched off and no budget: the configurations
    under which [processRetrievalChunks] meets no call of [log]. *)
Definition optionsOff (config : RAGContextInjector.RAGContextConfig) : bool :=
  match RAGContextInjector.minSimilarity config,
        RAGContextInjector.sortBySimilarity config,
        RAGContextInjector.truthyNumber (RAGContextInjector.maxContextLength config) with
  | None, Some false, None => true
  | _, _, _ => false
  end.

(** What the placeholder stage keeps of a message: its id and its role,
    and all of it when it holds no marker. *)
Definition keepsFrame (m m' : Message) : Prop :=
  msg_id m' = msg_id m /\ role m' = role m /\
  (PlaceholderVariableInjector.hasPlaceholders (msg_content m) = false -> m' = m).


(** The text a token came from. *)
Definition tokenText (t : PlaceholderVariableInjector.Token) : jsstring :=
  match t with
  | PlaceholderVariableInjector.TText s => s
  | PlaceholderVariableInjector.TEscape e =>
      PlaceholderVariableInjector.escapeOpen ++ e ++ PlaceholderVariableInjector.escapeClose
  | PlaceholderVariableInjector.TInterpolate e =>
      PlaceholderVariableInjector.interpolateOpen ++ e
        ++ PlaceholderVariableInjector.interpolateClose
  | PlaceholderVariableInjector.TEvaluate e =>
      PlaceholderVariableInjector.evaluateOpen ++ e
        ++ PlaceholderVariableInjector.evaluateClose
  end.

(** A line feed, the separator of the joins. *)
Definition lineFeed : jsstring := [10%N].

(** A chunk of 200 code units, for a budget of 150, and one of 80. *)
Definition longChunk : RetrievalChunk := mkChunk (repeat 97%N 200) (1 # 2) [].

Definition chunk80 : RetrievalChunk := mkChunk (repeat 97%N 80) (1 # 2) [].





Definition unsortedConfig : RAGContextInjector.RAGContextConfig :=
  RAGContextInjector.mkConfig [mkChunk (js "fact") (1 # 2) []] None None None None
    (Some false).


(** A conversation without a user message, and one with. *)
Definition assistantOnly : PipelineContext :=
  mkContext [mkMessage (js "1") (js "system") (js "be brief");
             mkMessage (js "2") (js "assistant") (js "hello")] ∅ false.


(** Two engines for the templates the model does not run itself: one on
    which they throw a ReferenceError, one on which they throw a Symbol,
    whose conversion to a string throws a TypeError. *)
Definition notDefined : Thrown := Printable (js "ReferenceError: missing is not defined").

Definition symbolToString : Thrown :=
  Printable (js "TypeError: Cannot convert a Symbol value to a string").

Definition referenceErrors (tokens : list PlaceholderVariableInjector.Token)
    (variables : PlaceholderVariableInjector.VariableBag)
    : Completion jsstring * PlaceholderVariableInjector.VariableBag :=
  (Throw notDefined, variables).

Definition throwsSymbol (tokens : list PlaceholderVariableInjector.Token)
    (variables : PlaceholderVariableInjector.VariableBag)
    : Completion jsstring * PlaceholderVariableInjector.VariableBag :=
  (Throw (Unprintable symbolToString), variables).

Definition htmlBag : PlaceholderVariableInjector.VariableBag :=
  [(js "html", PlaceholderVariableInjector.VString (js "<b>x</b>"))].


Definition symbolContext : PipelineContext :=
  mkContext [mkMessage (js "1") (js "system") (js "be brief");
             mkMessage (js "2") (js "user") (js "{% throw Symbol() %}");
             mkMessage (js "3") (js "user") (js "see {{html}}")] ∅ false.

End Spec.

(** ** Properties of the chunk budgeting *)

Module RAGFacts.
Import RAGContextInjector Spec.

Lemma jslength_nonneg (s : jsstring) : 0 <= JS.length s.
Proof. unfold JS.length. lia. Qed.

Lemma jslength_app (s t : jsstring) : JS.length (s ++ t) = JS.length s + JS.length t.
Proof. unfold JS.length. rewrite List.length_app. lia. Qed.

Lemma substring_prefix_length (s : jsstring) (n : Z) :
  0 <= n <= JS.length s -> JS.length (JS.substring s 0 n) = n.
Proof.
  intros Hn. unfold JS.substring, JS.clamp.
  replace (Z.min (Z.max 0 0) (JS.length s)) with 0 by (pose proof (jslength_nonneg s); lia).
  replace (Z.min (Z.max n 0) (JS.length s)) with n by lia.
  replace (Z.min 0 n) with 0 by lia.
  replace (Z.max 0 n - 0) with n by lia.
  change (Z.to_nat 0) with 0%nat. rewrite skipn_O. unfold JS.length in *.
  rewrite List.length_firstn. lia.

Qed.

Lemma totalContentLength_cons (c : RetrievalChunk) (l : list RetrievalChunk) :
  totalContentLength (c :: l) = JS.length (content c) + totalContentLength l.
Proof. reflexivity. Qed.

Lemma totalContentLength_app (l k : list RetrievalChunk) :
  totalContentLength (l ++ k) = totalContentLength l + totalContentLength k.
Proof.
  induction l as [|c l IH]; simpl; [reflexivity|]. rewrite IH. lia.
Qed.

Lemma totalContentLength_nonneg (l : list RetrievalChunk) : 0 <= totalContentLength l.
Proof.
  induction l as [|c l IH]; simpl; [lia|]. pose proof (jslength_nonneg (content c)). lia.
Qed.

(** The shape of what the loop returns: the chunks kept whole are a
    prefix of the input, and at most one truncated copy follows. *)
Lemma truncateLoop_shape (chunks : list RetrievalChunk) :
  forall (maxLength totalLength : Z) (result : list RetrievalChunk),
  exists kept rest,
    chunks = kept ++ rest /\
    (kept = [] \/ totalLength + totalContentLength kept <= maxLength) /\
    match rest with
    | [] => truncateLoop chunks maxLength totalLength result = result ++ kept
    | chunk :: _ =>
        let remaining := maxLength - (totalLength + totalContentLength kept) in
        maxLength < totalLength + totalContentLength kept + JS.length (content chunk) /\
        truncateLoop chunks maxLength totalLength result =
          result ++ kept ++
            (if 100 <? remaining
             then [withContent chunk (JS.substring (content chunk) 0 remaining ++ js "...")]
             else [])
    end.
Proof.
  induction chunks as [|chunk chunks IH]; intros maxLength totalLength result.
  - exists [], []. simpl. repeat split; [now left | now rewrite app_nil_r].
  - simpl. destruct (totalLength + JS.length (content chunk) <=? maxLength) eqn:Hfit.
    + apply Z.leb_le in Hfit.
      destruct (IH maxLength (totalLength + JS.length (content chunk)) (result ++ [chunk]))
        as (kept & rest & -> & Hsum & Hres).
      exists (chunk :: kept), rest. split; [reflexivity|]. split.
      * right. rewrite totalContentLength_cons.
        destruct Hsum as [-> | Hsum]; [change (totalContentLength []) with 0|]; lia.
      * rewrite totalContentLength_cons. destruct rest as [|next rest'].
        -- rewrite Hres, <- app_assoc. reflexivity.
        -- destruct Hres as [Hover Hres]. cbv zeta in *. split; [lia|].
           rewrite Hres, <- app_assoc. cbn [app].
           replace (maxLength - (totalLength + (JS.length (content chunk) + totalContentLength kept)))
             with (maxLength - (totalLength + JS.length (content chunk) + totalContentLength kept))
             by lia.
           reflexivity.
    + apply Z.leb_gt in Hfit.
      exists [], (chunk :: chunks). cbn [app]. split; [reflexivity|]. split; [now left|].
      change (totalContentLength []) with 0. cbv zeta.
      split; [lia|].
      replace (maxLength - (totalLength + 0)) with (maxLength - totalLength) by lia.
      destruct (100 <? maxLength - totalLength); [reflexivity|].
      now rewrite app_nil_r.
Qed.

Lemma truncateByLength_shape (chunks : list RetrievalChunk) (maxLength : Z) :
  exists kept rest,
    chunks = kept ++ rest /\
    (kept = [] \/ totalContentLength kept <= maxLength) /\
    match rest with
    | [] => truncateByLength chunks maxLength = kept
    | chunk :: _ =>
        let remaining := maxLength - totalContentLength kept in
        maxLength < totalContentLength kept + JS.length (content chunk) /\
        truncateByLength chunks maxLength =
          kept ++
            (if 100 <? remaining
             then [withContent chunk (JS.substring (content chunk) 0 remaining ++ js "...")]
             else [])
    end.
Proof.
  destruct (truncateLoop_shape chunks maxLength 0 []) as (kept & rest & Heq & Hsum & Hres).
  exists kept, rest. split; [exact Heq|]. split.
  - destruct Hsum as [? | ?]; [now left | right; lia].
  - unfold truncateByLength. destruct rest as [|chunk rest']; [exact Hres|].
    cbv zeta in *. rewrite !Z.add_0_l in Hres. exact Hres.
Qed.

(** *** The sort *)

Lemma comparator_le (a b : RetrievalChunk) :
  Qle_bool (bySimilarityDesc a b) 0 = true <-> descending a b.
Proof.
  unfold bySimilarityDesc, descending. rewrite Qle_bool_iff. split; intros H; lra.
Qed.

Lemma comparator_gt (a b : RetrievalChunk) :
  Qle_bool (bySimilarityDesc a b) 0 = false -> (similarity a < similarity b)%Q.
Proof.
  intros H. destruct (Qlt_le_dec (similarity a) (similarity b)) as [Hlt | Hle]; [exact Hlt|].
  apply comparator_le in Hle. congruence.
Qed.

Lemma sortInsert_Permutation (a : RetrievalChunk) (l : list RetrievalChunk) :
  Permutation (sortInsert bySimilarityDesc a l) (a :: l).
Proof.
  induction l as [|b l IH]; simpl; [reflexivity|].
  destruct (Qle_bool (bySimilarityDesc a b) 0); [reflexivity|].
  rewrite IH. apply perm_swap.
Qed.

Lemma sort_Permutation (l : list RetrievalChunk) :
  Permutation (sort bySimilarityDesc l) l.
Proof.
  induction l as [|a l IH]; simpl; [reflexivity|].
  rewrite sortInsert_Permutation. now constructor.
Qed.

Lemma sortInsert_sorted (a : RetrievalChunk) (l : list RetrievalChunk) :
  StronglySorted descending l ->
  StronglySorted descending (sortInsert bySimilarityDesc a l).
Proof.
  induction 1 as [|b l Hsorted IH Hall]; simpl.
  - repeat constructor.
  - destruct (Qle_bool (bySimilarityDesc a b) 0) eqn:Hcmp.
    + apply comparator_le in Hcmp. constructor; [now constructor|].
      constructor; [exact Hcmp|].
      eapply List.Forall_impl; [|exact Hall]. unfold descending in *. intros c Hc. lra.
    + apply comparator_gt in Hcmp. constructor; [exact IH|].
      assert (Hfront : Forall (descending b) (a :: l))
        by (constructor; [unfold descending; lra | exact Hall]).
      revert Hfront. apply Permutation_Forall.
      symmetry. apply sortInsert_Permutation.
Qed.

Lemma sort_sorted (l : list RetrievalChunk) :
  StronglySorted descending (sort bySimilarityDesc l).
Proof.
  induction l as [|a l IH]; simpl; [constructor|]. now apply sortInsert_sorted.
Qed.

(** Insertion goes past chunks of strictly greater similarity only, so
    the chunks of one similarity keep their order. *)
Lemma sortInsert_withSimilarity (s : Q) (a : RetrievalChunk) (l : list RetrievalChunk) :
  withSimilarity s (sortInsert bySimilarityDesc a l) = withSimilarity s (a :: l).
Proof.
  induction l as [|b l IH]; [reflexivity|].
  cbn [sortInsert]. destruct (Qle_bool (bySimilarityDesc a b) 0) eqn:Hcmp; [reflexivity|].
  apply comparator_gt in Hcmp.
  unfold withSimilarity in *. cbn [List.filter] in *. rewrite IH.
  destruct (Qeq_bool (similarity a) s) eqn:Ha; [|reflexivity].
  destruct (Qeq_bool (similarity b) s) eqn:Hb; [|reflexivity].
  apply Qeq_bool_iff in Ha, Hb. lra.
Qed.

Lemma sort_stable (s : Q) (l : list RetrievalChunk) :
  withSimilarity s (sort bySimilarityDesc l) = withSimilarity s l.
Proof.
  induction l as [|a l IH]; [reflexivity|].
  cbn [sort]. rewrite sortInsert_withSimilarity.
  unfold withSimilarity in *. cbn [List.filter]. now rewrite IH.
Qed.

(** The budget can be exceeded by the three code units of the ellipsis,
    and by no more. *)
Lemma truncateByLength_total_bound (chunks : list RetrievalChunk) (maxLength : Z) :
  totalContentLength (truncateByLength chunks maxLength) <= Z.max maxLength 0 + 3.
Proof.
  destruct (truncateByLength_shape chunks maxLength) as (kept & rest & _ & Hsum & Hres).
  assert (Hkept : totalContentLength kept <= Z.max maxLength 0)
    by (destruct Hsum as [-> | Hsum]; [change (totalContentLength []) with 0|]; lia).
  destruct rest as [|chunk rest']; [rewrite Hres; lia|].
  destruct Hres as [Hover ->].
  destruct (100 <? maxLength - totalContentLength kept) eqn:Hroom.
  - apply Z.ltb_lt in Hroom.
    rewrite totalContentLength_app, totalContentLength_cons.
    change (totalContentLength []) with 0. cbn [withContent content].
    rewrite jslength_app, substring_prefix_length by lia.
    change (JS.length (js "...")) with 3. lia.
  - rewrite app_nil_r. lia.
Qed.

(** What [processRetrievalChunks] does: with every option off it returns
    its input; otherwise it throws at the first [log] it reaches. *)
Lemma processRetrievalChunks_outcome (config : RAGContextConfig)
    (chunks : list RetrievalChunk) :
  processRetrievalChunks config chunks =
    if optionsOff config then Normal chunks else Throw logIsNotDefined.
Proof.
  unfold processRetrievalChunks, optionsOff.
  destruct (minSimilarity config); [reflexivity|].
  destruct (sortBySimilarity config) as [[|]|]; try reflexivity.
  destruct (truthyNumber (maxContextLength config)); reflexivity.
Qed.

(** C1, at an input that exceeds the budget.  [truncateByLength] on one
    chunk of 200 code units with [maxLength = 150]: the chunk is cut to
    the 150 units of the remaining budget and the ellipsis is appended
    after the cut, so the total content length returned is 153, above the
    budget. *)
Theorem budget_exceeded_by_ellipsis :
  let out := truncateByLength [longChunk] 150 in
  out = [ {| content := repeat 97%N 150 ++ js "...";
             similarity := (1 # 2)%Q; passthrough := [] |} ] /\
  totalContentLength out = 153 /\
  ~ totalContentLength out <= 150.
Proof. vm_compute. repeat split. intros H. apply H. reflexivity. Qed.

(** C2.  Truncation walks the chunks in order while they fit whole; at the
    first chunk that does not fit, a copy whose content is the chunk's
    first code units, as many as the remaining budget, and an ellipsis is
    kept when that budget is above 100, and nothing after that chunk is
    looked at.  A kept fragment is longer than 100 code units.  Three
    chunks of length 80 under a budget of 150 give the first chunk
    alone. *)
Theorem truncation_stops_at_first_overflow :
  (forall (chunks : list RetrievalChunk) (maxLength : Z),
     exists kept rest,
       chunks = kept ++ rest /\
       (kept = [] \/ totalContentLength kept <= maxLength) /\
       match rest with
       | [] => truncateByLength chunks maxLength = kept
       | chunk :: _ =>
           let remaining := maxLength - totalContentLength kept in
           let fragment :=
             firstn (Z.to_nat remaining) (content chunk) ++ [46; 46; 46]%N in
           maxLength < totalContentLength kept + JS.length (content chunk) /\
           if 100 <? remaining
           then truncateByLength chunks maxLength =
                  kept ++ [ {| content := fragment;
                               similarity := similarity chunk;
                               passthrough := passthrough chunk |} ]
                /\ JS.length fragment = remaining + 3
                /\ 100 <= JS.length fragment
           else truncateByLength chunks maxLength = kept
       end) /\
  (forall c1 c2 c3 : RetrievalChunk,
     JS.length (content c1) = 80 ->
     JS.length (content c2) = 80 ->
     JS.length (content c3) = 80 ->
     truncateByLength [c1; c2; c3] 150 = [c1]).
Proof.
  split.
  - intros chunks maxLength.
    destruct (truncateByLength_shape chunks maxLength) as (kept & rest & Heq & Hsum & Hres).
    exists kept, rest. split; [exact Heq|]. split; [exact Hsum|].
    destruct rest as [|chunk rest']; [exact Hres|].
    cbv zeta in *. destruct Hres as [Hover Hres]. split; [exact Hover|].
    destruct (100 <? maxLength - totalContentLength kept) eqn:Hroom.
    + apply Z.ltb_lt in Hroom.
      pose proof (totalContentLength_nonneg kept) as Hpos.
      assert (Hcut : JS.substring (content chunk) 0 (maxLength - totalContentLength kept)
                     = firstn (Z.to_nat (maxLength - totalContentLength kept))
                         (content chunk)).
      { unfold JS.substring, JS.clamp.
        pose proof (jslength_nonneg (content chunk)) as Hlen.
        replace (Z.min (Z.max 0 0) (JS.length (content chunk))) with 0 by lia.
        replace (Z.min (Z.max (maxLength - totalContentLength kept) 0)
                   (JS.length (content chunk)))
          with (maxLength - totalContentLength kept) by lia.
        replace (Z.min 0 (maxLength - totalContentLength kept)) with 0 by lia.
        replace (Z.max 0 (maxLength - totalContentLength kept) - 0)
          with (maxLength - totalContentLength kept) by lia.
        change (Z.to_nat 0) with 0%nat. now rewrite skipn_O. }
      assert (Hlen : JS.length (firstn (Z.to_nat (maxLength - totalContentLength kept))
                                  (content chunk) ++ [46; 46; 46]%N)
                     = maxLength - totalContentLength kept + 3).
      { rewrite <- Hcut, jslength_app, substring_prefix_length by lia. reflexivity. }
      split; [|split; [exact Hlen | lia]].
      rewrite Hres. unfold withContent. rewrite Hcut. reflexivity.
    + now rewrite app_nil_r in Hres.
  - intros c1 c2 c3 H1 H2 H3. unfold truncateByLength. cbn [truncateLoop].
    rewrite H1. change (0 + 80 <=? 150) with true. cbv iota.
    rewrite H2. reflexivity.
Qed.

(** Three chunks of 80 code units under a budget of 150. *)
Lemma truncation_stops_at_first_overflow_witness :
  truncateByLength [chunk80; chunk80; chunk80] 150 = [chunk80].
Proof.
  apply (proj2 truncation_stops_at_first_overflow); reflexivity.
Defined.



End RAGFacts.

(** ** Properties of the RAG injection stage *)

Module RAGStageFacts.
Import RAGContextInjector Spec.

(** C4, at an input on which the stage returns nothing.  One chunk to
    inject, the sort switched off (so that the budgeting returns), and a
    system and an assistant message only: no user message is found, and
    the call of [log] in that branch throws where the stage was to return
    the context marked executed. *)
Theorem no_user_run_throws
    (toFixed1 : Q -> jsstring) (average : list Q -> JSNumber) :
  processRetrievalChunks unsortedConfig (chunks unsortedConfig)
    = Normal (chunks unsortedConfig) /\
  findLastUserMessage (messages assistantOnly) = None /\
  doProcess toFixed1 average unsortedConfig assistantOnly = Throw logIsNotDefined.
Proof. repeat split. Qed.


End RAGStageFacts.

(** ** Properties of the placeholder stage *)

Module PlaceholderFacts.
Import PlaceholderVariableInjector Spec.

(** *** The patterns *)

Lemma stripPrefix_app (p s : jsstring) : stripPrefix p (p ++ s) = Some s.
Proof.
  induction p as [|a p IH]; [now destruct s|].
  cbn [stripPrefix app]. now rewrite N.eqb_refl.
Qed.

Lemma stripPrefix_Some (p s rest : jsstring) :
  stripPrefix p s = Some rest -> s = p ++ rest.
Proof.
  revert s. induction p as [|a p IH]; intros s H.
  - destruct s; injection H as <-; reflexivity.
  - destruct s as [|b s]; [discriminate|]. cbn [stripPrefix] in H.
    destruct (N.eqb a b) eqn:Hab; [|discriminate].
    apply N.eqb_eq in Hab as ->. cbn [app]. f_equal. now apply IH.
Qed.

Lemma lazyUntil_Some (close s acc captured rest : jsstring) :
  lazyUntil close s acc = Some (captured, rest) ->
  exists mid,
    captured = acc ++ mid /\ s = mid ++ close ++ rest /\ mid <> [] /\
    Forall (fun c => isLineTerminator c = false) mid.
Proof.
  revert acc. induction s as [|c s IH]; intros acc H; [discriminate|].
  cbn [lazyUntil] in H. destruct (isLineTerminator c) eqn:Hc; [discriminate|].
  destruct (stripPrefix close s) as [after|] eqn:Hclose.
  - injection H as <- <-. exists [c]. apply stripPrefix_Some in Hclose as ->.
    repeat split; [discriminate | now repeat constructor].
  - apply IH in H as (mid & -> & -> & _ & Hmid). exists (c :: mid).
    rewrite <- app_assoc. repeat split; [discriminate | now constructor].
Qed.

Lemma lazyUntil_complete (close mid post acc : jsstring) :
  mid <> [] ->
  Forall (fun c => isLineTerminator c = false) mid ->
  exists found, lazyUntil close (mid ++ close ++ post) acc = Some found.
Proof.
  revert acc. induction mid as [|c mid IH]; intros acc Hne Hall; [contradiction|].
  apply Forall_cons_iff in Hall as [Hc Hall].
  cbn [lazyUntil app]. rewrite Hc.
  destruct (stripPrefix close (mid ++ close ++ post)) as [after|] eqn:Hclose; [eauto|].
  destruct mid as [|d mid]; [|apply IH; [discriminate | exact Hall]].
  cbn [app] in Hclose. rewrite stripPrefix_app in Hclose. discriminate.
Qed.

Lemma test_step (open close : jsstring) (c : N) (text : jsstring) :
  test open close text = true -> test open close (c :: text) = true.
Proof.
  intros H. cbn [test]. now destruct (matchHere open close (c :: text)).
Qed.

(** [test] decides the presence of a marker. *)
Lemma test_containsMarker (open close text : jsstring) :
  test open close text = true <-> containsMarker open close text.
Proof.
  split.
  - induction text as [|c text IH]; cbn [test]; intros H.
    + destruct (matchHere open close []) as [[captured rest]|] eqn:Hm; [|discriminate].
      unfold matchHere in Hm. destruct (stripPrefix open []) as [s'|] eqn:Hopen; [|discriminate].
      apply stripPrefix_Some in Hopen. apply lazyUntil_Some in Hm as (mid & _ & -> & Hne & Hall).
      exists [], mid, rest. now repeat split.
    + destruct (matchHere open close (c :: text)) as [[captured rest]|] eqn:Hm.
      * unfold matchHere in Hm.
        destruct (stripPrefix open (c :: text)) as [s'|] eqn:Hopen; [|discriminate].
        apply stripPrefix_Some in Hopen.
        apply lazyUntil_Some in Hm as (mid & _ & -> & Hne & Hall).
        exists [], mid, rest. now repeat split.
      * destruct (IH H) as (pre & mid & post & -> & Hne & Hall).
        exists (c :: pre), mid, post. now repeat split.
  - intros (pre & mid & post & -> & Hne & Hall).
    induction pre as [|c pre IH].
    + cbn [app].
      assert (Hm : exists found, matchHere open close (open ++ mid ++ close ++ post) = Some found).
      { unfold matchHere. rewrite stripPrefix_app. now apply lazyUntil_complete. }
      destruct Hm as [found Hm].
      destruct (open ++ mid ++ close ++ post); cbn [test]; now rewrite Hm.
    + cbn [app]. now apply test_step.
Qed.

Lemma hasPlaceholders_true (text : jsstring) :
  hasPlaceholders text = true ->
  containsMarker interpolateOpen interpolateClose text \/
  containsMarker escapeOpen escapeClose text \/
  containsMarker evaluateOpen evaluateClose text.
Proof.
  unfold hasPlaceholders. destruct text as [|c text]; [discriminate|].
  cbn [existsb fst snd]. rewrite !orb_true_iff, !test_containsMarker.
  intros [H | [H | [H | H]]]; auto; discriminate.
Qed.

(** *** The callback of the map *)

Lemma processMessage_skip
    (runCompiled : list Token -> VariableBag -> Completion jsstring * VariableBag)
    (message : Message) (counts : nat * nat) (variables : VariableBag) :
  hasPlaceholders (msg_content message) = false ->
  processMessage runCompiled message counts variables = (Normal (message, counts), variables).
Proof.
  intros H. unfold processMessage. destruct counts as [p e]. now rewrite H.
Qed.

Lemma processMessage_Normal
    (runCompiled : list Token -> VariableBag -> Completion jsstring * VariableBag)
    (message message' : Message) (p e p' e' : nat) (variables variables' : VariableBag) :
  processMessage runCompiled message (p, e) variables
    = (Normal (message', (p', e')), variables') ->
  keepsFrame message message' /\
  (p <= p')%nat /\ (e <= e')%nat /\ (p' + e' <= S (p + e))%nat.
Proof.
  unfold processMessage, keepsFrame.
  destruct (hasPlaceholders (msg_content message)) eqn:Hh; cbn [negb].
  - destruct (template runCompiled (msg_content message) variables)
      as [[processedContent | thrown] after].
    + intros H. injection H as <- <- <- <-. cbn [msg_id role].
      repeat split; try discriminate;
        destruct (negb (JS.eqb processedContent (msg_content message))); lia.
    + destruct thrown as [text | raised]; [|discriminate].
      intros H. injection H as <- <- <- <-. repeat split; try discriminate; lia.
  - intros H. injection H as <- <- <- <-. repeat split; lia.
Qed.

Lemma mapMessages_Normal
    (runCompiled : list Token -> VariableBag -> Completion jsstring * VariableBag)
    (messages : list Message) :
  forall (p e : nat) (variables : VariableBag) (out : list Message) (p' e' : nat)
         (variables' : VariableBag),
  mapMessages runCompiled messages (p, e) variables = (Normal (out, (p', e')), variables') ->
  Forall2 keepsFrame messages out /\
  (p' + e' <= p + e + List.length messages)%nat.
Proof.
  induction messages as [|m messages IH]; intros p e variables out p' e' variables' H.
  - cbn [mapMessages] in H. injection H as <- <- <- <-.
    split; [constructor | cbn [List.length]; lia].
  - cbn [mapMessages] in H.
    destruct (processMessage runCompiled m (p, e) variables)
      as [[[m1 [p1 e1]] | thrown] after] eqn:Hm; [|discriminate].
    destruct (mapMessages runCompiled messages (p1, e1) after)
      as [[[rest1 [p2 e2]] | thrown] after2] eqn:Hrest; [|discriminate].
    injection H as <- <- <- <-.
    apply processMessage_Normal in Hm as (Hframe & _ & _ & Hsum).
    apply IH in Hrest as [Hall Hcount].
    split; [now constructor | cbn [List.length]; lia].
Qed.

(** Messages without marker at the head of the list are passed over. *)
Lemma mapMessages_skip
    (runCompiled : list Token -> VariableBag -> Completion jsstring * VariableBag)
    (before rest : list Message) (counts : nat * nat) (variables : VariableBag) :
  Forall (fun m => hasPlaceholders (msg_content m) = false) before ->
  mapMessages runCompiled (before ++ rest) counts variables =
    match mapMessages runCompiled rest counts variables with
    | (Normal (rest', counts'), variables') => (Normal (before ++ rest', counts'), variables')
    | (Throw thrown, variables') => (Throw thrown, variables')
    end.
Proof.
  induction 1 as [|m before Hm _ IH]; cbn [app mapMessages].
  - now destruct (mapMessages runCompiled rest counts variables) as [[[rest' counts'] | thrown] after].
  - rewrite (processMessage_skip _ _ _ _ Hm), IH.
    now destruct (mapMessages runCompiled rest counts variables) as [[[rest' counts'] | thrown] after].
Qed.




(** The shape of a run that returns, with a non-empty bag. *)
Lemma doProcess_Normal
    (runCompiled : list Token -> VariableBag -> Completion jsstring * VariableBag)
    (variables variables' : VariableBag) (context out : PipelineContext) :
  variables <> [] ->
  doProcess runCompiled variables context = (Normal out, variables') ->
  exists messages' processedCount errorCount,
    mapMessages runCompiled (messages context) (O, O) variables
      = (Normal (messages', (processedCount, errorCount)), variables') /\
    out = {| messages := messages';
             metadata :=
               <["availableVariables" := MStrings (keys variables')]>
                 (<["placeholderErrors" := MNumber (Z.of_nat errorCount)]>
                    (<["placeholdersProcessed" := MNumber (Z.of_nat processedCount)]>
                       (metadata context)));
             executed := true |}.
Proof.
  intros Hne. unfold doProcess, cloneContext.
  destruct variables as [|[k v] variables]; [contradiction|]. cbn [keys map fst].
  destruct (mapMessages runCompiled (messages context) (O, O) ((k, v) :: variables))
    as [[[messages' [processedCount errorCount]] | thrown] after]; [|discriminate].
  intros H. injection H as <- <-. now exists messages', processedCount, errorCount.
Qed.

(** *** The scan of [template] *)

Lemma delimiterHere_other (c : N) (s : jsstring) :
  c <> 123%N -> delimiterHere (c :: s) = None.
Proof.
  intros Hc. apply not_eq_sym, N.eqb_neq in Hc.
  unfold delimiterHere, matchHere.
  change escapeOpen with [123; 123; 123]%N.
  change interpolateOpen with [123; 123]%N.
  change evaluateOpen with [123; 37]%N.
  cbn [stripPrefix]. now rewrite Hc.
Qed.

Lemma scan_text (pre s text : jsstring) (fuel : nat) :
  Forall (fun c => c <> 123%N) pre ->
  scan (List.length pre + fuel) (pre ++ s) text = scan fuel s (text ++ pre).
Proof.
  intros Hpre. revert text. induction Hpre as [|c pre Hc Hpre IH]; intros text.
  - now rewrite app_nil_r.
  - cbn [List.length Nat.add app scan]. rewrite delimiterHere_other by exact Hc.
    rewrite IH, <- app_assoc. reflexivity.
Qed.

Lemma scan_delimiter (fuel : nat) (s text rest : jsstring) (token : Token) :
  delimiterHere s = Some (token, rest) ->
  scan (S fuel) s text = TText text :: token :: scan fuel rest [].
Proof. intros H. cbn [scan]. now rewrite H. Qed.

Lemma tokenize_framed (pre post delimiter : jsstring) (token : Token) :
  Forall (fun c => c <> 123%N) pre ->
  Forall (fun c => c <> 123%N) post ->
  delimiter <> [] ->
  delimiterHere (delimiter ++ post) = Some (token, post) ->
  tokenize (pre ++ delimiter ++ post) = [TText pre; token; TText post].
Proof.
  intros Hpre Hpost Hne Hhere. unfold tokenize.
  destruct delimiter as [|d delimiter]; [contradiction|].
  rewrite !List.length_app. cbn [List.length].
  replace (S (List.length pre + (S (List.length delimiter) + List.length post)))
    with (List.length pre + S (S (List.length post + List.length delimiter)))%nat by lia.
  rewrite scan_text by exact Hpre.
  rewrite (scan_delimiter _ _ _ _ _ Hhere). cbn [app].
  pose proof (scan_text post [] [] (S (List.length delimiter)) Hpost) as Hrest.
  rewrite app_nil_r in Hrest. cbn [app] in Hrest.
  replace (S (List.length post + List.length delimiter))
    with (List.length post + S (List.length delimiter))%nat by lia.
  rewrite Hrest. reflexivity.
Qed.

Lemma framed_nonempty (pre post delimiter : jsstring) :
  delimiter <> [] -> pre ++ delimiter ++ post <> [].
Proof. destruct pre, delimiter; [contradiction | discriminate..]. Qed.

(** C5, at the inputs on which a failure leaves the run.  The catch
    block logs the thrown value, which converts it to a string.  When the
    expansion of a message throws a value that does not convert (a
    Symbol, an object without [toString]), the conversion throws inside
    the catch block: with a non-empty bag, and messages without marker
    before that one, the run ends with the exception of the conversion
    and returns no context.  When the thrown value converts, the callback
    returns the message as it was, with one more error counted. *)
Theorem unprintable_failure_leaves_the_run
    (runCompiled : list Token -> VariableBag -> Completion jsstring * VariableBag)
    (variables variables' : VariableBag) (context : PipelineContext)
    (before rest : list Message) (m : Message) (thrown : Thrown) :
  variables <> [] ->
  messages context = before ++ m :: rest ->
  Forall (fun m0 => hasPlaceholders (msg_content m0) = false) before ->
  hasPlaceholders (msg_content m) = true ->
  template runCompiled (msg_content m) variables = (Throw thrown, variables') ->
  match thrown with
  | Unprintable raised =>
      doProcess runCompiled variables context = (Throw raised, variables')
  | Printable _ =>
      forall p e,
        processMessage runCompiled m (p, e) variables = (Normal (m, (p, S e)), variables')
  end.
Proof.
  intros Hne Hmessages Hbefore Hh Ht. destruct thrown as [text | raised].
  - intros p e. unfold processMessage. now rewrite Hh, Ht.
  - unfold doProcess, cloneContext.
    destruct variables as [|[k v] variables]; [contradiction|]. cbn [keys map fst].
    rewrite Hmessages, mapMessages_skip by exact Hbefore.
    cbn [mapMessages]. unfold processMessage. now rewrite Hh, Ht.
Qed.

(** The second message throws a Symbol: the run ends with the TypeError
    of the conversion. *)
Lemma unprintable_failure_leaves_the_run_witness :
  doProcess throwsSymbol htmlBag symbolContext = (Throw symbolToString, htmlBag).
Proof.
  apply (unprintable_failure_leaves_the_run throwsSymbol htmlBag htmlBag symbolContext
           [mkMessage (js "1") (js "system") (js "be brief")]
           [mkMessage (js "3") (js "user") (js "see {{html}}")]
           (mkMessage (js "2") (js "user") (js "{% throw Symbol() %}"))
           (Unprintable symbolToString)).
  - discriminate.
  - reflexivity.
  - repeat constructor.
  - reflexivity.
  - reflexivity.
Defined.

(** C7.  A text that contains none of the three markers has no
    placeholder for [hasPlaceholders], and a message for which
    [hasPlaceholders] is false leaves the stage as it entered it: the
    callback returns the message itself, with the counters and the bag
    untouched, and every context the stage returns holds the message at
    its index. *)
Theorem text_without_markers_is_left_alone :
  (forall text : jsstring,
     ~ containsMarker interpolateOpen interpolateClose text ->
     ~ containsMarker escapeOpen escapeClose text ->
     ~ containsMarker evaluateOpen evaluateClose text ->
     hasPlaceholders text = false) /\
  (forall (runCompiled : list Token -> VariableBag -> Completion jsstring * VariableBag)
          (variables : VariableBag) (m : Message),
     hasPlaceholders (msg_content m) = false ->
     (forall counts : nat * nat,
        processMessage runCompiled m counts variables = (Normal (m, counts), variables)) /\
     (forall (context out : PipelineContext) (variables' : VariableBag) (i : nat),
        messages context !! i = Some m ->
        doProcess runCompiled variables context = (Normal out, variables') ->
        messages out !! i = Some m)).
Proof.
  split.
  - intros text H1 H2 H3. destruct (hasPlaceholders text) eqn:Hh; [|reflexivity].
    apply hasPlaceholders_true in Hh. tauto.
  - intros runCompiled variables m Hh. split.
    + intros counts. now apply processMessage_skip.
    + intros context out variables' i Hm Hrun.
      destruct variables as [|kv variables].
      * unfold doProcess, cloneContext in Hrun. cbn [keys map] in Hrun.
        injection Hrun as <- _. exact Hm.
      * apply doProcess_Normal in Hrun as (messages' & p & e & Hmap & ->);
          [|discriminate].
        apply mapMessages_Normal in Hmap as [Hall _]. cbn [messages].
        destruct (Forall2_lookup_l _ _ _ _ _ Hall Hm) as (m' & Hm' & _ & _ & Hsame).
        now rewrite Hm', (Hsame Hh).
Qed.

(** A plain sentence, with a lone brace. *)
Lemma text_without_markers_is_left_alone_witness :
  hasPlaceholders (js "plain {text}") = false.
Proof.
  apply (proj1 text_without_markers_is_left_alone);
    intros H; apply test_containsMarker in H; discriminate H.
Defined.

(** C8.  The bag binds [html] to the markup and none of the names the
    compiled function keeps for itself; around the markers, text without
    an opening brace.  On [{{{html}}}] the raw pattern could match too,
    from the same position, but the escaped pattern is tried first: the
    text compiles to an escaped interpolation of [html] and expands to
    the value with its markup escaped.  On [{{html}}] it compiles to a
    raw interpolation and the value is inserted as it is.  Neither
    expansion changes the bag. *)
Theorem escaped_form_takes_precedence
    (runCompiled : list Token -> VariableBag -> Completion jsstring * VariableBag)
    (variables : VariableBag) (pre post : jsstring) :
  bindsInternal variables = false ->
  lookupVariable (js "html") variables = Some (VString (js "<b>x</b>")) ->
  Forall (fun c => c <> 123%N) pre ->
  Forall (fun c => c <> 123%N) post ->
  matchHere interpolateOpen interpolateClose (js "{{{html}}}" ++ post)
    = Some (js "{html", js "}" ++ post) /\
  tokenize (pre ++ js "{{{html}}}" ++ post)
    = [TText pre; TEscape (js "html"); TText post] /\
  tokenize (pre ++ js "{{html}}" ++ post)
    = [TText pre; TInterpolate (js "html"); TText post] /\
  hasPlaceholders (pre ++ js "{{{html}}}" ++ post) = true /\
  hasPlaceholders (pre ++ js "{{html}}" ++ post) = true /\
  template runCompiled (pre ++ js "{{{html}}}" ++ post) variables
    = (Normal (pre ++ js "&lt;b&gt;x&lt;/b&gt;" ++ post), variables) /\
  template runCompiled (pre ++ js "{{html}}" ++ post) variables
    = (Normal (pre ++ js "<b>x</b>" ++ post), variables).
Proof.
  intros Hbinds Hlookup Hpre Hpost.
  assert (Hescaped : tokenize (pre ++ js "{{{html}}}" ++ post)
                     = [TText pre; TEscape (js "html"); TText post])
    by (apply tokenize_framed; [assumption | assumption | discriminate | reflexivity]).
  assert (Hraw : tokenize (pre ++ js "{{html}}" ++ post)
                 = [TText pre; TInterpolate (js "html"); TText post])
    by (apply tokenize_framed; [assumption | assumption | discriminate | reflexivity]).
  assert (Hmarker : forall (delimiter mid : jsstring) (after : jsstring),
            delimiter <> [] ->
            delimiter = interpolateOpen ++ mid ++ interpolateClose ++ after ->
            mid <> [] -> Forall (fun c => isLineTerminator c = false) mid ->
            hasPlaceholders (pre ++ delimiter ++ post) = true).
  { intros delimiter mid after Hne Hd Hmid Hall. unfold hasPlaceholders.
    pose proof (framed_nonempty pre post delimiter Hne) as Htext.
    destruct (pre ++ delimiter ++ post) as [|c text] eqn:Heq; [contradiction|].
    cbn [existsb fst snd]. apply orb_true_iff. left. apply test_containsMarker.
    exists pre, mid, (after ++ post). rewrite <- Heq, Hd, <- !app_assoc.
    now repeat split. }
  assert (Hvalue : plainValue (js "html") variables = Some (VString (js "<b>x</b>"))).
  { unfold plainValue.
    assert (Hplain : isPlainIdentifier (js "html") = true) by (vm_compute; reflexivity).
    now rewrite Hplain. }
  assert (Hmarkup : escape (VString (js "<b>x</b>")) = Some (js "&lt;b&gt;x&lt;/b&gt;"))
    by reflexivity.
  split; [reflexivity|]. split; [exact Hescaped|]. split; [exact Hraw|].
  split; [|split; [|split]].
  - apply (Hmarker (js "{{{html}}}") (js "{html") (js "}"));
      [discriminate | reflexivity | discriminate | now repeat constructor].
  - apply (Hmarker (js "{{html}}") (js "html") []);
      [discriminate | reflexivity | discriminate | now repeat constructor].
  - unfold template. rewrite Hbinds, Hescaped. cbn [renderPlain].
    rewrite Hvalue, Hmarkup. cbn [app]. now rewrite <- app_assoc.
  - unfold template. rewrite Hbinds, Hraw. cbn [renderPlain].
    rewrite Hvalue. cbn [interpolated toString app]. now rewrite <- app_assoc.
Qed.

(** The bag binding [html] alone, and a sentence around the marker;
    the engine is not asked. *)
Lemma escaped_form_takes_precedence_witness :
  template referenceErrors (js "Hi " ++ js "{{{html}}}" ++ js "!") htmlBag
    = (Normal (js "Hi &lt;b&gt;x&lt;/b&gt;!"), htmlBag) /\
  template referenceErrors (js "Hi " ++ js "{{html}}" ++ js "!") htmlBag
    = (Normal (js "Hi <b>x</b>!"), htmlBag).
Proof.
  destruct (escaped_form_takes_precedence referenceErrors htmlBag
              (js "Hi ") (js "!")) as (_ & _ & _ & _ & _ & Hescaped & Hraw).
  - reflexivity.
  - reflexivity.
  - repeat constructor; discriminate.
  - repeat constructor; discriminate.
  - split; [exact Hescaped | exact Hraw].
Defined.

(** C10.  With an empty bag the stage returns the context it received,
    marked executed: the messages are the input's and so is the metadata,
    so none of [placeholdersProcessed], [placeholderErrors] and
    [availableVariables] is written; no template is run and the bag stays
    empty. *)
Theorem empty_bag_leaves_metadata_untouched
    (runCompiled : list Token -> VariableBag -> Completion jsstring * VariableBag)
    (context : PipelineContext) :
  exists out : PipelineContext,
  doProcess runCompiled [] context = (Normal out, []) /\
  out = markAsExecuted context /\
  executed out = true /\
  messages out = messages context /\
  metadata out = metadata context /\
  metadata out !! "placeholdersProcessed" = metadata context !! "placeholdersProcessed" /\
  metadata out !! "placeholderErrors" = metadata context !! "placeholderErrors" /\
  metadata out !! "availableVariables" = metadata context !! "availableVariables".
Proof. exists (markAsExecuted context). repeat split. Qed.

End PlaceholderFacts.

(** ** Further properties of the chunk budgeting *)

Module RAGMoreFacts.
Import RAGContextInjector Spec RAGFacts RAGStageFacts.

(** *** [truncateByLength] *)

Lemma truncateLoop_fits (chunks : list RetrievalChunk) :
  forall (maxLength totalLength : Z) (result : list RetrievalChunk),
  totalLength + totalContentLength chunks <= maxLength ->
  truncateLoop chunks maxLength totalLength result = result ++ chunks.
Proof.
  induction chunks as [|chunk chunks IH]; intros maxLength totalLength result Hfit.
  - now rewrite app_nil_r.
  - rewrite totalContentLength_cons in Hfit. cbn [truncateLoop].
    pose proof (totalContentLength_nonneg chunks) as Hpos.
    destruct (totalLength + JS.length (content chunk) <=? maxLength) eqn:Hle;
      [|apply Z.leb_gt in Hle; lia].
    rewrite IH by lia. now rewrite <- app_assoc.
Qed.

(** A chunk list within the budget comes back as it is. *)
Theorem truncateByLength_within_budget (chunks : list RetrievalChunk) (maxLength : Z) :
  totalContentLength chunks <= maxLength ->
  truncateByLength chunks maxLength = chunks.
Proof.
  intros Hfit. unfold truncateByLength. now rewrite truncateLoop_fits by lia.
Qed.

Lemma truncateByLength_within_budget_witness :
  truncateByLength [chunk80; chunk80] 160 = [chunk80; chunk80].
Proof. apply truncateByLength_within_budget. vm_compute. discriminate. Defined.

(** What [truncateByLength] returns is either a prefix of its input that
    stays within the budget, or, under a budget above 100 only, whole
    chunks followed by one cut chunk, and then the total content length
    is the budget plus the 3 code units of the ellipsis. *)
Theorem truncateByLength_prefix_or_cut (chunks : list RetrievalChunk) (maxLength : Z) :
  let out := truncateByLength chunks maxLength in
  (exists rest,
     chunks = out ++ rest /\ (out = [] \/ totalContentLength out <= maxLength)) \/
  (100 < maxLength /\
   totalContentLength out = maxLength + 3 /\
   exists kept chunk rest fragment,
     chunks = kept ++ chunk :: rest /\
     out = kept ++ [withContent chunk fragment] /\
     JS.length (content chunk) > JS.length fragment - 3).
Proof.
  intros out. subst out.
  destruct (truncateByLength_shape chunks maxLength) as (kept & rest & Heq & Hsum & Hres).
  destruct rest as [|chunk rest'].
  - left. exists []. rewrite Hres. split; [exact Heq | exact Hsum].
  - destruct Hres as [Hover Hres].
    destruct (100 <? maxLength - totalContentLength kept) eqn:Hroom.
    + right. apply Z.ltb_lt in Hroom.
      pose proof (totalContentLength_nonneg kept) as Hpos.
      assert (Hlen : JS.length (JS.substring (content chunk) 0
                       (maxLength - totalContentLength kept) ++ js "...")
                     = maxLength - totalContentLength kept + 3).
      { rewrite jslength_app, substring_prefix_length by lia. reflexivity. }
      split; [lia|]. rewrite Hres. split.
      * rewrite totalContentLength_app, totalContentLength_cons.
        change (totalContentLength []) with 0. cbn [withContent content]. lia.
      * exists kept, chunk, rest'. eexists. split; [exact Heq|]. split; [reflexivity|]. lia.
    + left. exists (chunk :: rest'). rewrite Hres, app_nil_r. split; [exact Heq | exact Hsum].
Qed.

(** *** [processRetrievalChunks] *)

(** [processRetrievalChunks] returns exactly when no threshold is set,
    the sort is switched off and no budget applies, and then returns the
    chunks it was given; in every other configuration it throws the
    ReferenceError of the first [log] it reaches, whatever the chunks. *)
Theorem processRetrievalChunks_returns_iff
    (config : RAGContextConfig) (chunks : list RetrievalChunk) :
  ((exists out, processRetrievalChunks config chunks = Normal out) <->
   minSimilarity config = None /\ sortBySimilarity config = Some false /\
   truthyNumber (maxContextLength config) = None) /\
  (forall out, processRetrievalChunks config chunks = Normal out -> out = chunks) /\
  (forall thrown,
     processRetrievalChunks config chunks = Throw thrown -> thrown = logIsNotDefined).
Proof.
  unfold processRetrievalChunks.
  destruct (minSimilarity config) as [threshold|].
  { cbn [bind log]. split; [split; [intros [out H]; discriminate | intros (H & _); discriminate]|].
    split; [discriminate | congruence]. }
  destruct (sortBySimilarity config) as [[|]|];
    try (cbn [bind log];
         split; [split; [intros [out H]; discriminate | intros (_ & H & _); discriminate]|];
         split; [discriminate | congruence]).
  destruct (truthyNumber (maxContextLength config)) as [maxLength|].
  { cbn [bind log].
    split; [split; [intros [out H]; discriminate | intros (_ & _ & H); discriminate]|].
    split; [discriminate | congruence]. }
  cbn [bind]. split; [split; [auto | eauto]|]. split; [congruence | discriminate].
Qed.

(** The sort of lines 96 to 98, as far as it runs: it permutes the
    chunks into descending order of similarity and keeps the chunks of
    any one similarity in the order they had. *)
Theorem sort_step_is_stable_descending (chunks : list RetrievalChunk) :
  Permutation (sort bySimilarityDesc chunks) chunks /\
  StronglySorted descending (sort bySimilarityDesc chunks) /\
  (forall s : Q,
     withSimilarity s (sort bySimilarityDesc chunks) = withSimilarity s chunks) /\
  (StronglySorted descending chunks -> sort bySimilarityDesc chunks = chunks).
Proof.
  split; [|split; [|split]].
  - induction chunks as [|a l IH]; [constructor|]. cbn [sort].
    rewrite sortInsert_Permutation. now constructor.
  - induction chunks as [|a l IH]; [constructor|]. cbn [sort]. now apply sortInsert_sorted.
  - intros s. induction chunks as [|a l IH]; [reflexivity|]. cbn [sort].
    rewrite sortInsert_withSimilarity by apply sort_sorted.
    unfold withSimilarity in *. cbn [List.filter]. now rewrite IH.
  - induction 1 as [|a l Hsorted IH Hall]; [reflexivity|].
    cbn [sort]. rewrite IH. destruct l as [|b l]; [reflexivity|].
    cbn [sortInsert]. apply Forall_cons_iff in Hall as [Hab _].
    apply comparator_le in Hab. now rewrite Hab.
Qed.

End RAGMoreFacts.

(** ** Further properties of the RAG provider *)

Module RAGStageMoreFacts.
Import RAGContextInjector Spec RAGFacts RAGStageFacts RAGMoreFacts.

(** *** [findLastUserMessage] *)

Lemma findLastUserFrom_spec (messages : list Message) (n : nat) :
  match findLastUserFrom messages n with
  | Some (i, m) =>
      (i < n)%nat /\ messages !! i = Some m /\ role m = js "user" /\
      forall j m', (i < j < n)%nat -> messages !! j = Some m' -> role m' <> js "user"
  | None =>
      forall j m', (j < n)%nat -> messages !! j = Some m' -> role m' <> js "user"
  end.
Proof.
  induction n as [|n IH]; cbn [findLastUserFrom]; [intros j m' Hj; lia|].
  destruct (messages !! n) as [m|] eqn:Hm.
  - unfold JS.eqb. destruct (bool_decide (role m = js "user")) eqn:Hrole.
    + apply bool_decide_eq_true_1 in Hrole. repeat split; [lia | exact Hm | exact Hrole |].
      intros j m' Hj. lia.
    + apply bool_decide_eq_false_1 in Hrole.
      destruct (findLastUserFrom messages n) as [[i m0]|].
      * destruct IH as (Hi & Hlook & Huser & Hlater). repeat split; [lia | assumption..|].
        intros j m' Hj Hj'. destruct (decide (j = n)) as [-> | Hne].
        -- rewrite Hm in Hj'. now injection Hj' as <-.
        -- apply (Hlater j m'); [lia | exact Hj'].
      * intros j m' Hj Hj'. destruct (decide (j = n)) as [-> | Hne].
        -- rewrite Hm in Hj'. now injection Hj' as <-.
        -- apply (IH j m'); [lia | exact Hj'].
  - destruct (findLastUserFrom messages n) as [[i m0]|].
    + destruct IH as (Hi & Hlook & Huser & Hlater). repeat split; [lia | assumption..|].
      intros j m' Hj Hj'. destruct (decide (j = n)) as [-> | Hne]; [congruence|].
      apply (Hlater j m'); [lia | exact Hj'].
    + intros j m' Hj Hj'. destruct (decide (j = n)) as [-> | Hne]; [congruence|].
      apply (IH j m'); [lia | exact Hj'].
Qed.

Lemma findLastUserMessage_found (messages : list Message) (i : nat) (m : Message) :
  findLastUserMessage messages = Some (i, m) ->
  messages !! i = Some m /\ role m = js "user".
Proof.
  unfold findLastUserMessage. intros Hfind.
  pose proof (findLastUserFrom_spec messages (List.length messages)) as H.
  rewrite Hfind in H. tauto.
Qed.

(** [findLastUserMessage] returns the message of role [user] with the
    greatest index, and nothing exactly when no message has that role. *)
Theorem findLastUserMessage_is_last_user (messages : list Message) :
  match findLastUserMessage messages with
  | Some (i, m) =>
      messages !! i = Some m /\ role m = js "user" /\
      forall j m', (i < j)%nat -> messages !! j = Some m' -> role m' <> js "user"
  | None => Forall (fun m => role m <> js "user") messages
  end.
Proof.
  unfold findLastUserMessage.
  pose proof (findLastUserFrom_spec messages (List.length messages)) as H.
  destruct (findLastUserFrom messages (List.length messages)) as [[i m]|].
  - destruct H as (_ & Hlook & Huser & Hlater). repeat split; [assumption..|].
    intros j m' Hj Hj'. apply (Hlater j m'); [|exact Hj'].
    apply lookup_lt_Some in Hj'. lia.
  - apply Forall_lookup_2. intros j m' Hj. apply (H j m'); [|exact Hj].
    now apply lookup_lt_Some in Hj.
Qed.

(** *** The stage *)

(** Every path through [doProcess] meets a call of [log] before it
    returns: whatever the configuration and the context, the stage throws
    the ReferenceError and returns no context. *)
Theorem rag_stage_always_throws
    (toFixed1 : Q -> jsstring) (average : list Q -> JSNumber)
    (config : RAGContextConfig) (context : PipelineContext) :
  doProcess toFixed1 average config context = Throw logIsNotDefined.
Proof.
  unfold doProcess. destruct (chunks config) as [|c0 cs]; [reflexivity|].
  rewrite processRetrievalChunks_outcome.
  destruct (optionsOff config); [|reflexivity]. cbn [bind].
  destruct (findLastUserMessage (messages (cloneContext context))) as [[i m]|]; reflexivity.
Qed.

(** [preview] goes through [processRetrievalChunks]: it returns the block
    built from the configured chunks, all of them and in their order,
    when every option is off, and throws the ReferenceError otherwise. *)
Theorem preview_returns_iff (toFixed1 : Q -> jsstring) (config : RAGContextConfig) :
  preview toFixed1 config =
    if optionsOff config
    then Normal (buildRAGContext toFixed1 config (chunks config))
    else Throw logIsNotDefined.
Proof.
  unfold preview. rewrite processRetrievalChunks_outcome.
  now destruct (optionsOff config).
Qed.

(** *** The injected text *)

Lemma trimStart_app (a b : jsstring) :
  JS.trimStart (a ++ b) =
    match JS.trimStart a with
    | [] => JS.trimStart b
    | c :: t => (c :: t) ++ b
    end.
Proof.
  induction a as [|c a IH]; [reflexivity|].
  cbn [app JS.trimStart]. destruct (JS.isTrimmable c); [exact IH | reflexivity].
Qed.

Lemma trimEnd_last (s : jsstring) (z : N) :
  JS.isTrimmable z = false -> JS.trimEnd (s ++ [z]) = s ++ [z].
Proof.
  intros Hz. unfold JS.trimEnd. rewrite rev_app_distr. cbn [rev app JS.trimStart].
  rewrite Hz. cbn [rev]. now rewrite rev_involutive.
Qed.

Lemma join_snoc (sep : jsstring) (p x : jsstring) (l : list jsstring) :
  JS.join sep ((p :: l) ++ [x]) = JS.join sep (p :: l) ++ sep ++ x.
Proof.
  revert p. induction l as [|q l IH]; intros p; [reflexivity|].
  change (JS.join sep ((p :: q :: l) ++ [x])) with (p ++ sep ++ JS.join sep ((q :: l) ++ [x])).
  rewrite IH.
  change (JS.join sep (p :: q :: l)) with (p ++ sep ++ JS.join sep (q :: l)).
  now rewrite <- !app_assoc.
Qed.

(** The block begins with the preamble and ends with the closing
    instruction. *)
Lemma buildRAGContext_frame (toFixed1 : Q -> jsstring) (config : RAGContextConfig)
    (chunks : list RetrievalChunk) :
  exists body, buildRAGContext toFixed1 config chunks = preamble ++ body ++ closing.
Proof.
  unfold buildRAGContext.
  assert (H : forall parts : list jsstring,
            exists body,
              JS.join (js (String (ascii_of_nat 10) EmptyString))
                ((preamble :: [] :: parts) ++ [closing]) = preamble ++ body ++ closing).
  { intros parts. rewrite join_snoc.
    change (JS.join ?sep (preamble :: [] :: parts))
      with (preamble ++ sep ++ JS.join sep ([] :: parts)).
    exists (js (String (ascii_of_nat 10) EmptyString)
            ++ JS.join (js (String (ascii_of_nat 10) EmptyString)) ([] :: parts)
            ++ js (String (ascii_of_nat 10) EmptyString)).
    now rewrite <- !app_assoc. }
  cbn [app]. destruct (rewriteQuery config) as [[|c q]|]; apply H.
Qed.

(** The content written to the last user message is the original
    content without its leading white space, an empty line and the block,
    the block alone when the original content is blank; the trim never
    reaches into the block. *)
Theorem injected_content_shape (toFixed1 : Q -> jsstring) (config : RAGContextConfig)
    (chunks : list RetrievalChunk) (originalContent : jsstring) :
  let ragContext := buildRAGContext toFixed1 config chunks in
  injectRAGContext originalContent ragContext =
    match JS.trimStart originalContent with
    | [] => ragContext
    | c :: t => (c :: t) ++ lineFeed ++ lineFeed ++ ragContext
    end.
Proof.
  intros ragContext. subst ragContext.
  destruct (buildRAGContext_frame toFixed1 config chunks) as [body ->].
  unfold injectRAGContext, JS.trim.
  change (JS.join ?sep [originalContent; []; ?rag])
    with (originalContent ++ lineFeed ++ lineFeed ++ rag).
  assert (Hend : forall s, JS.trimEnd (s ++ preamble ++ body ++ closing)
                           = s ++ preamble ++ body ++ closing).
  { intros s.
    change closing with (removelast closing ++ [12290%N]).
    rewrite !app_assoc. apply trimEnd_last. reflexivity. }
  rewrite trimStart_app. destruct (JS.trimStart originalContent) as [|c t].
  - change (JS.trimStart (lineFeed ++ lineFeed ++ preamble ++ body ++ closing))
      with (preamble ++ body ++ closing).
    apply (Hend []).
  - pose proof (Hend ((c :: t) ++ lineFeed ++ lineFeed)) as H.
    rewrite <- !app_assoc in H. exact H.
Qed.

(** *** The statistics *)

Lemma fold_min_lower (rest : list Q) (x : Q) :
  (fold_left Qmin rest x <= x)%Q /\
  Forall (fun y => (fold_left Qmin rest x <= y)%Q) rest.
Proof.
  revert x. induction rest as [|y rest IH]; intros x; cbn [fold_left].
  - split; [apply Qle_refl | constructor].
  - destruct (IH (Qmin x y)) as [Hhead Hrest].
    pose proof (Q.le_min_l x y). pose proof (Q.le_min_r x y).
    split; [lra|]. constructor; [lra | exact Hrest].
Qed.

Lemma fold_max_upper (rest : list Q) (x : Q) :
  (x <= fold_left Qmax rest x)%Q /\
  Forall (fun y => (y <= fold_left Qmax rest x)%Q) rest.
Proof.
  revert x. induction rest as [|y rest IH]; intros x; cbn [fold_left].
  - split; [apply Qle_refl | constructor].
  - destruct (IH (Qmax x y)) as [Hhead Hrest].
    pose proof (Q.le_max_l x y). pose proof (Q.le_max_r x y).
    split; [lra|]. constructor; [lra | exact Hrest].
Qed.

Lemma fold_min_attained (rest : list Q) (x : Q) :
  Exists (fun y => (y == fold_left Qmin rest x)%Q) (x :: rest).
Proof.
  revert x. induction rest as [|y rest IH]; intros x; cbn [fold_left].
  - left. reflexivity.
  - specialize (IH (Qmin x y)). apply Exists_cons in IH as [Hhead | Htail].
    + destruct (Q.min_spec x y) as [[_ Hmin] | [_ Hmin]].
      * left. now rewrite <- Hhead, Hmin.
      * right. left. now rewrite <- Hhead, Hmin.
    + right. right. exact Htail.
Qed.

Lemma fold_max_attained (rest : list Q) (x : Q) :
  Exists (fun y => (y == fold_left Qmax rest x)%Q) (x :: rest).
Proof.
  revert x. induction rest as [|y rest IH]; intros x; cbn [fold_left].
  - left. reflexivity.
  - specialize (IH (Qmax x y)). apply Exists_cons in IH as [Hhead | Htail].
    + destruct (Q.max_spec x y) as [[_ Hmax] | [_ Hmax]].
      * right. left. now rewrite <- Hhead, Hmax.
      * left. now rewrite <- Hhead, Hmax.
    + right. right. exact Htail.
Qed.

(** Over a non-empty list, [Math.min] and [Math.max] are values of the
    list that bracket all of it; over no argument they are [Infinity] and
    [-Infinity]. *)
Theorem statistics_bracket (x : Q) (xs : list Q) :
  Math_min [] = PosInfinity /\
  Math_max [] = NegInfinity /\
  exists lo hi,
    Math_min (x :: xs) = Finite lo /\
    Math_max (x :: xs) = Finite hi /\
    Forall (fun y => (lo <= y <= hi)%Q) (x :: xs) /\
    Exists (fun y => (y == lo)%Q) (x :: xs) /\
    Exists (fun y => (y == hi)%Q) (x :: xs).
Proof.
  split; [reflexivity|]. split; [reflexivity|].
  unfold Math_min, Math_max. do 2 eexists.
  split; [reflexivity|]. split; [reflexivity|].
  destruct (fold_min_lower xs x) as [Hminx Hmin].
  destruct (fold_max_upper xs x) as [Hmaxx Hmax].
  split; [|split; [apply fold_min_attained | apply fold_max_attained]].
  constructor.
  - split; assumption.
  - apply List.Forall_forall. intros y Hy. split.
    + exact (proj1 (List.Forall_forall _ _) Hmin y Hy).
    + exact (proj1 (List.Forall_forall _ _) Hmax y Hy).
Qed.

Lemma fold_add_total (chunks : list RetrievalChunk) (acc : Z) :
  fold_left Z.add (map (fun c => JS.length (content c)) chunks) acc
  = acc + totalContentLength chunks.
Proof.
  revert acc. induction chunks as [|c chunks IH]; intros acc.
  - cbn. lia.
  - cbn [map fold_left]. rewrite IH, totalContentLength_cons. lia.
Qed.

(** [getChunksStats] answers [null] exactly when no chunk is configured.
    Otherwise it counts the configured chunks, whatever the threshold and
    the budget, sums their content lengths, and reports the least and the
    greatest of their similarities, which bracket every configured
    chunk. *)
Theorem getChunksStats_figures
    (average : list Q -> JSNumber) (averageLength : list Z -> JSNumber)
    (config : RAGContextConfig) :
  (getChunksStats average averageLength config = None <-> chunks config = []) /\
  forall stats, getChunksStats average averageLength config = Some stats ->
    stats_count stats = Z.of_nat (List.length (chunks config)) /\
    1 <= stats_count stats /\
    stats_totalLength stats = totalContentLength (chunks config) /\
    stats_avgLength stats
      = averageLength (map (fun c => JS.length (content c)) (chunks config)) /\
    stats_avgSimilarity stats = average (map similarity (chunks config)) /\
    exists lo hi,
      stats_minSimilarity stats = Finite lo /\
      stats_maxSimilarity stats = Finite hi /\
      Forall (fun chunk => (lo <= similarity chunk <= hi)%Q) (chunks config).
Proof.
  unfold getChunksStats. destruct (chunks config) as [|c cs] eqn:Hchunks.
  - split; [tauto | discriminate].
  - split; [split; discriminate|]. intros stats Hstats. injection Hstats as <-.
    cbn [stats_count stats_totalLength stats_avgLength stats_minSimilarity
         stats_maxSimilarity stats_avgSimilarity].
    split; [reflexivity|]. split; [cbn [List.length]; lia|].
    split; [rewrite fold_add_total, totalContentLength_cons; lia|].
    split; [reflexivity|]. split; [reflexivity|].
    cbn [map Math_min Math_max]. do 2 eexists.
    split; [reflexivity|]. split; [reflexivity|].
    destruct (fold_min_lower (map similarity cs) (similarity c)) as [Hminx Hmin].
    destruct (fold_max_upper (map similarity cs) (similarity c)) as [Hmaxx Hmax].
    constructor; [split; assumption|].
    apply List.Forall_forall. intros chunk Hchunk.
    apply (List.in_map similarity) in Hchunk. split.
    + exact (proj1 (List.Forall_forall _ _) Hmin _ Hchunk).
    + exact (proj1 (List.Forall_forall _ _) Hmax _ Hchunk).
Qed.

End RAGStageMoreFacts.

(** ** Further properties of the placeholder provider *)

Module PlaceholderMoreFacts.
Import PlaceholderVariableInjector Spec PlaceholderFacts.

(** *** Markers and tokens *)

Lemma matchHere_Some (open close s captured rest : jsstring) :
  matchHere open close s = Some (captured, rest) ->
  s = open ++ captured ++ close ++ rest /\
  captured <> [] /\
  Forall (fun c => isLineTerminator c = false) captured.
Proof.
  unfold matchHere. destruct (stripPrefix open s) as [s'|] eqn:Hopen; [|discriminate].
  intros H. apply stripPrefix_Some in Hopen as ->.
  apply lazyUntil_Some in H as (mid & -> & -> & Hne & Hall). auto.
Qed.

Lemma delimiterHere_Some (s rest : jsstring) (token : Token) :
  delimiterHere s = Some (token, rest) ->
  s = tokenText token ++ rest /\
  match token with
  | TText _ => False
  | TEscape e | TInterpolate e | TEvaluate e =>
      e <> [] /\ Forall (fun c => isLineTerminator c = false) e
  end.
Proof.
  unfold delimiterHere.
  destruct (matchHere escapeOpen escapeClose s) as [[e r]|] eqn:H1.
  { intros H. injection H as <- <-. apply matchHere_Some in H1 as (-> & Hne & Hall).
    cbn [tokenText]. rewrite <- !app_assoc. auto. }
  destruct (matchHere interpolateOpen interpolateClose s) as [[e r]|] eqn:H2.
  { intros H. injection H as <- <-. apply matchHere_Some in H2 as (-> & Hne & Hall).
    cbn [tokenText]. rewrite <- !app_assoc. auto. }
  destruct (matchHere evaluateOpen evaluateClose s) as [[e r]|] eqn:H3; [|discriminate].
  intros H. injection H as <- <-. apply matchHere_Some in H3 as (-> & Hne & Hall).
  cbn [tokenText]. rewrite <- !app_assoc. auto.
Qed.

Lemma scan_roundtrip (fuel : nat) :
  forall s text : jsstring,
  concat (map tokenText (scan fuel s text)) = text ++ s /\
  Forall (fun t => match t with
                   | TText _ => True
                   | TEscape e | TInterpolate e | TEvaluate e =>
                       e <> [] /\ Forall (fun c => isLineTerminator c = false) e
                   end) (scan fuel s text).
Proof.
  induction fuel as [|fuel IH]; intros s text; cbn [scan].
  - cbn. rewrite app_nil_r. split; [reflexivity | now repeat constructor].
  - destruct (delimiterHere s) as [[token rest]|] eqn:Hhere.
    + apply delimiterHere_Some in Hhere as [-> Htoken].
      destruct (IH rest []) as [Hcat Hall].
      cbn [map concat tokenText]. rewrite Hcat. cbn [app]. split; [reflexivity|].
      constructor; [exact I|]. constructor; [|exact Hall].
      destruct token; [contradiction | exact Htoken..].
    + destruct s as [|c s'].
      * cbn. rewrite !app_nil_r. split; [reflexivity | now repeat constructor].
      * destruct (IH s' (text ++ [c])) as [Hcat Hall]. rewrite Hcat, <- app_assoc.
        split; [reflexivity | exact Hall].
Qed.

(** The scan of [template] loses nothing: the texts and the markers of
    the tokens, put back in order, are the input; and a marker token
    always holds a non-empty expression without a line terminator. *)
Theorem tokenize_round_trip (text : jsstring) :
  concat (map tokenText (tokenize text)) = text /\
  Forall (fun t => match t with
                   | TText _ => True
                   | TEscape e | TInterpolate e | TEvaluate e =>
                       e <> [] /\ Forall (fun c => isLineTerminator c = false) e
                   end) (tokenize text).
Proof. unfold tokenize. exact (scan_roundtrip _ text []). Qed.

Lemma escaped_marker_is_raw_marker (text : jsstring) :
  containsMarker escapeOpen escapeClose text ->
  containsMarker interpolateOpen interpolateClose text.
Proof.
  intros (pre & mid & post & -> & Hne & Hall).
  exists pre, (123%N :: mid), (125%N :: post). split; [reflexivity|].
  split; [discriminate|]. now constructor.
Qed.

(** The second pattern of [hasPlaceholders] never decides: a text with a
    triple-brace marker has a double-brace marker too, so the answer is
    the one of the first and the third pattern. *)
Theorem hasPlaceholders_two_patterns (text : jsstring) :
  hasPlaceholders text =
    test interpolateOpen interpolateClose text || test evaluateOpen evaluateClose text.
Proof.
  destruct text as [|c text]; [reflexivity|].
  unfold hasPlaceholders. cbn [existsb fst snd]. rewrite orb_false_r.
  destruct (test escapeOpen escapeClose (c :: text)) eqn:Hescape; [|reflexivity].
  apply test_containsMarker, escaped_marker_is_raw_marker, test_containsMarker in Hescape.
  rewrite Hescape. reflexivity.
Qed.

Lemma test_false_here (open close : jsstring) (s : jsstring) :
  test open close s = false ->
  matchHere open close s = None /\
  forall c s', s = c :: s' -> test open close s' = false.
Proof.
  destruct s as [|c s]; cbn [test].
  - destruct (matchHere open close []); [discriminate|]. split; [reflexivity | discriminate].
  - destruct (matchHere open close (c :: s)); [discriminate|]. intros H.
    split; [reflexivity|]. intros c' s' Heq. now injection Heq as _ <-.
Qed.

Lemma scan_plain (s : jsstring) :
  forall (fuel : nat) (text : jsstring),
  (List.length s < fuel)%nat ->
  test escapeOpen escapeClose s = false ->
  test interpolateOpen interpolateClose s = false ->
  test evaluateOpen evaluateClose s = false ->
  scan fuel s text = [TText (text ++ s)].
Proof.
  induction s as [|c s IH]; intros fuel text Hfuel H1 H2 H3;
    (destruct fuel as [|fuel]; [cbn [List.length] in Hfuel; lia|]).
  - cbn. now rewrite app_nil_r.
  - apply test_false_here in H1 as [H1 H1']. apply test_false_here in H2 as [H2 H2'].
    apply test_false_here in H3 as [H3 H3'].
    cbn [scan]. unfold delimiterHere. rewrite H1, H2, H3.
    rewrite IH; [now rewrite <- app_assoc | cbn [List.length] in Hfuel; lia | eauto..].
Qed.

Lemma hasPlaceholders_false (text : jsstring) :
  hasPlaceholders text = false ->
  test escapeOpen escapeClose text = false /\
  test interpolateOpen interpolateClose text = false /\
  test evaluateOpen evaluateClose text = false.
Proof.
  destruct text as [|c text]; [now repeat split|].
  unfold hasPlaceholders. cbn [existsb fst snd].
  rewrite orb_false_r, !orb_false_iff. tauto.
Qed.

(** The test before the expansion only saves work: on a text for which
    [hasPlaceholders] is false, [template] would compile the text to
    itself; with a bag that binds none of the names the compiled function
    keeps for itself, running it gives the text back without asking the
    engine and leaves the bag as it is. *)
Theorem template_is_identity_without_marker
    (runCompiled : list Token -> VariableBag -> Completion jsstring * VariableBag)
    (variables : VariableBag) (text : jsstring) :
  hasPlaceholders text = false ->
  bindsInternal variables = false ->
  tokenize text = [TText text] /\
  template runCompiled text variables = (Normal text, variables).
Proof.
  intros Hh Hbinds. apply hasPlaceholders_false in Hh as (H1 & H2 & H3).
  assert (Htokens : tokenize text = [TText text]).
  { unfold tokenize. now rewrite scan_plain by (auto; lia). }
  split; [exact Htokens|]. unfold template. now rewrite Hbinds, Htokens.
Qed.

Lemma template_is_identity_without_marker_witness :
  template referenceErrors (js "a {brace} and 50%") htmlBag
  = (Normal (js "a {brace} and 50%"), htmlBag).
Proof.
  apply (template_is_identity_without_marker referenceErrors htmlBag); reflexivity.
Defined.

(** *** [extractPlaceholders] *)

Lemma execAll_nil (open close : jsstring) (s : jsstring) :
  forall fuel : nat,
  (List.length s < fuel)%nat ->
  (execAll fuel open close s = [] <-> test open close s = false).
Proof.
  induction s as [|c s IH]; intros fuel Hfuel;
    (destruct fuel as [|fuel]; [cbn [List.length] in Hfuel; lia|]);
    cbn [execAll test].
  - destruct (matchHere open close []) as [[captured rest]|]; [split; discriminate | tauto].
  - destruct (matchHere open close (c :: s)) as [[captured rest]|]; [split; discriminate|].
    apply IH. cbn [List.length] in Hfuel. lia.
Qed.

Lemma execAll_In (open close : jsstring) (fuel : nat) :
  forall (s x : jsstring),
  In x (execAll fuel open close s) ->
  exists pre post,
    s = pre ++ open ++ x ++ close ++ post /\
    x <> [] /\ Forall (fun c => isLineTerminator c = false) x.
Proof.
  induction fuel as [|fuel IH]; intros s x Hx; [contradiction|].
  cbn [execAll] in Hx.
  destruct (matchHere open close s) as [[captured rest]|] eqn:Hm.
  - apply matchHere_Some in Hm as (-> & Hne & Hall). destruct Hx as [<- | Hx].
    + exists [], rest. auto.
    + apply IH in Hx as (pre & post & -> & Hx).
      exists (open ++ captured ++ close ++ pre), post. rewrite <- !app_assoc. auto.
  - destruct s as [|c s]; [contradiction|].
    apply IH in Hx as (pre & post & -> & Hx). exists (c :: pre), post. auto.
Qed.

Lemma seen_In (x : jsstring) (seen : list jsstring) :
  existsb (JS.eqb x) seen = true <-> In x seen.
Proof.
  rewrite List.existsb_exists. unfold JS.eqb. split.
  - intros (y & Hy & Heq). apply bool_decide_eq_true_1 in Heq. now subst.
  - intros Hx. exists x. split; [exact Hx | now apply bool_decide_eq_true_2].
Qed.

Lemma dedupe_In (l : list jsstring) :
  forall (seen : list jsstring) (x : jsstring),
  In x (dedupe seen l) <-> In x l /\ ~ In x seen.
Proof.
  induction l as [|y l IH]; intros seen x; cbn [dedupe]; [cbn; tauto|].
  destruct (existsb (JS.eqb y) seen) eqn:Hseen.
  - apply seen_In in Hseen. rewrite IH. cbn [In]. split; [tauto|].
    intros [[<- | Hx] Hnot]; [contradiction | tauto].
  - assert (Hnot : ~ In y seen) by (rewrite <- seen_In, Hseen; discriminate).
    cbn [In]. rewrite IH. cbn [In]. split.
    + intros [<- | [Hx Hn]]; [tauto|]. split; [tauto|]. intros Hs. apply Hn. now right.
    + intros [[<- | Hx] Hn]; [now left|].
      destruct (decide (y = x)) as [-> | Hne]; [now left|]. right.
      split; [exact Hx|]. intros [? | ?]; contradiction.
Qed.

Lemma dedupe_NoDup (l : list jsstring) :
  forall seen : list jsstring, List.NoDup (dedupe seen l).
Proof.
  induction l as [|y l IH]; intros seen; cbn [dedupe]; [constructor|].
  destruct (existsb (JS.eqb y) seen); [apply IH|].
  constructor; [|apply IH]. rewrite dedupe_In. cbn [In]. tauto.
Qed.

Lemma trimStart_length (s : jsstring) :
  (List.length (JS.trimStart s) <= List.length s)%nat.
Proof.
  induction s as [|c s IH]; [reflexivity|]. cbn [JS.trimStart].
  destruct (JS.isTrimmable c); cbn [List.length]; lia.
Qed.

Lemma trimStart_idempotent (s : jsstring) :
  JS.trimStart (JS.trimStart s) = JS.trimStart s.
Proof.
  induction s as [|c s IH]; [reflexivity|]. cbn [JS.trimStart].
  destruct (JS.isTrimmable c) eqn:Hc; [exact IH|]. cbn [JS.trimStart]. now rewrite Hc.
Qed.

Lemma trimStart_suffix (s : jsstring) :
  exists w, s = w ++ JS.trimStart s.
Proof.
  induction s as [|c s [w IH]]; [now exists []|]. cbn [JS.trimStart].
  destruct (JS.isTrimmable c); [|now exists []].
  exists (c :: w). cbn [app]. now f_equal.
Qed.

Lemma trimStart_fixed (s : jsstring) (c : N) (t : jsstring) :
  JS.trimStart s = s -> s = c :: t -> JS.isTrimmable c = false.
Proof.
  intros Hfix ->. cbn [JS.trimStart] in Hfix.
  destruct (JS.isTrimmable c); [|reflexivity].
  pose proof (trimStart_length t) as Hlen. rewrite Hfix in Hlen.
  cbn [List.length] in Hlen. lia.
Qed.

Lemma trim_idempotent (s : jsstring) : JS.trim (JS.trim s) = JS.trim s.
Proof.
  unfold JS.trim. set (t := JS.trimStart s).
  assert (Ht : JS.trimStart t = t) by apply trimStart_idempotent.
  assert (Hstart : JS.trimStart (JS.trimEnd t) = JS.trimEnd t).
  { destruct (trimStart_suffix (rev t)) as [w Hw].
    assert (Hprefix : t = JS.trimEnd t ++ rev w).
    { unfold JS.trimEnd. rewrite <- rev_app_distr, <- Hw. now rewrite rev_involutive. }
    destruct (JS.trimEnd t) as [|c u] eqn:Hu; [reflexivity|].
    cbn [JS.trimStart]. now rewrite (trimStart_fixed t c (u ++ rev w) Ht Hprefix). }
  rewrite Hstart. unfold JS.trimEnd. rewrite rev_involutive.
  now rewrite trimStart_idempotent.
Qed.

Lemma dedupe_nil (l : list jsstring) : dedupe [] l = [] <-> l = [].
Proof. destruct l; cbn; split; intros; try discriminate; reflexivity. Qed.

(** [extractPlaceholders] finds nothing exactly on the texts for which
    [hasPlaceholders] is false. *)
Theorem extractPlaceholders_empty_iff (text : jsstring) :
  extractPlaceholders text = [] <-> hasPlaceholders text = false.
Proof.
  destruct text as [|c text]; [split; reflexivity|].
  unfold extractPlaceholders, hasPlaceholders. rewrite dedupe_nil.
  cbn [map concat existsb fst snd]. rewrite app_nil_r, orb_false_r.
  set (fuel := S (List.length (c :: text))).
  assert (Hfuel : (List.length (c :: text) < fuel)%nat) by (unfold fuel; lia).
  assert (Hmap : forall l : list jsstring, map JS.trim l = [] <-> l = [])
    by (intros [|x l]; cbn; split; intros; try discriminate; reflexivity).
  rewrite !orb_false_iff.
  rewrite <- !(execAll_nil _ _ _ fuel Hfuel). split.
  - intros H. apply app_eq_nil in H as [H1 H]. apply app_eq_nil in H as [H2 H3].
    rewrite Hmap in H1, H2, H3. auto.
  - intros (H1 & H2 & H3). now rewrite H1, H2, H3.
Qed.

(** [extractPlaceholders] returns no string twice; each string it
    returns is trimmed, and is the trimmed expression of a marker of the
    text: an opening delimiter, the expression, not empty and without
    line terminator, and the matching closing delimiter. *)
Theorem extractPlaceholders_distinct_trimmed (text : jsstring) :
  List.NoDup (extractPlaceholders text) /\
  forall x, In x (extractPlaceholders text) ->
    JS.trim x = x /\
    exists open close expr pre post,
      In (open, close) [ (interpolateOpen, interpolateClose);
                         (escapeOpen, escapeClose);
                         (evaluateOpen, evaluateClose) ] /\
      x = JS.trim expr /\
      text = pre ++ open ++ expr ++ close ++ post /\
      expr <> [] /\ Forall (fun c => isLineTerminator c = false) expr.
Proof.
  destruct text as [|c text]; [split; [constructor | contradiction]|].
  unfold extractPlaceholders. split; [apply dedupe_NoDup|].
  intros x Hx. apply dedupe_In in Hx as [Hx _].
  apply List.in_concat in Hx as (group & Hgroup & Hx).
  apply List.in_map_iff in Hgroup as ([open close] & <- & Hpattern).
  apply List.in_map_iff in Hx as (expr & <- & Hexpr). cbn [fst snd] in Hexpr.
  split; [apply trim_idempotent|].
  apply execAll_In in Hexpr as (pre & post & Heq & Hne & Hall).
  exists open, close, expr, pre, post. auto.
Qed.

(** *** [preview] and the stage *)




(** *** The bag *)

Lemma eqb_refl (s : jsstring) : JS.eqb s s = true.
Proof. unfold JS.eqb. now apply bool_decide_eq_true_2. Qed.

Lemma eqb_neq (s t : jsstring) : s <> t -> JS.eqb s t = false.
Proof. unfold JS.eqb. intros H. now apply bool_decide_eq_false_2. Qed.

Lemma eqb_true (s t : jsstring) : JS.eqb s t = true -> s = t.
Proof. unfold JS.eqb. apply bool_decide_eq_true_1. Qed.

Lemma lookupVariable_app (name : jsstring) (l k : VariableBag) :
  lookupVariable name (l ++ k) =
    match lookupVariable name l with
    | Some v => Some v
    | None => lookupVariable name k
    end.
Proof.
  induction l as [|[k0 v0] l IH]; [reflexivity|]. cbn [app lookupVariable].
  now destruct (JS.eqb k0 name).
Qed.

Lemma lookupVariable_absent (name : jsstring) (l : VariableBag) :
  existsb (JS.eqb name) (keys l) = false -> lookupVariable name l = None.
Proof.
  induction l as [|[k v] l IH]; [reflexivity|]. cbn [keys map fst existsb lookupVariable].
  intros H. apply orb_false_iff in H as [Hk H].
  assert (Hne : k <> name) by (intros ->; now rewrite eqb_refl in Hk).
  rewrite (eqb_neq _ _ Hne). now apply IH.
Qed.

(** Where [insertIndex] puts a new array index: after the smaller
    indices, before everything else. *)
Lemma insertIndex_split (n : N) (key : jsstring) (value : JSValue) (variables : VariableBag) :
  exists before after,
    variables = before ++ after /\
    insertIndex n key value variables = before ++ (key, value) :: after /\
    Forall (fun kv : jsstring * JSValue =>
              exists m, arrayIndex kv.1 = Some m /\ (m < n)%N) before /\
    match after with
    | [] => True
    | kv :: _ =>
        match arrayIndex kv.1 with
        | Some m => (n <= m)%N
        | None => True
        end
    end.
Proof.
  induction variables as [|[k v] variables (before & after & Heq & Hins & Hbefore & Hafter)].
  - exists [], []. repeat split. constructor.
  - cbn [insertIndex]. destruct (arrayIndex k) as [m|] eqn:Hk.
    + destruct (m <? n)%N eqn:Hlt.
      * apply N.ltb_lt in Hlt. exists ((k, v) :: before), after.
        rewrite Hins, Heq. repeat split; [|exact Hafter].
        constructor; [exists m; now split | exact Hbefore].
      * apply N.ltb_ge in Hlt. exists [], ((k, v) :: variables).
        repeat split; [constructor|]. cbn [fst]. now rewrite Hk.
    + exists [], ((k, v) :: variables). repeat split; [constructor|]. cbn [fst].
      now rewrite Hk.
Qed.

Lemma overwrite_keys (key : jsstring) (value : JSValue) (variables : VariableBag) :
  keys (overwrite key value variables) = keys variables.
Proof.
  unfold keys. induction variables as [|[k v] variables IH]; [reflexivity|].
  cbn [overwrite]. destruct (JS.eqb k key); cbn [map fst]; [reflexivity | now rewrite IH].
Qed.

Lemma overwrite_lookup (key other : jsstring) (value : JSValue) (variables : VariableBag) :
  lookupVariable other (overwrite key value variables) =
    if JS.eqb key other
    then (if existsb (JS.eqb key) (keys variables) then Some value else None)
    else lookupVariable other variables.
Proof.
  induction variables as [|[k v] variables IH].
  - cbn. now destruct (JS.eqb key other).
  - cbn [overwrite keys map fst existsb lookupVariable].
    destruct (JS.eqb k key) eqn:Hk.
    + apply eqb_true in Hk as ->. rewrite eqb_refl. cbn [orb lookupVariable].
      now destruct (JS.eqb key other).
    + assert (Hne : key <> k) by (intros ->; now rewrite eqb_refl in Hk).
      rewrite (eqb_neq _ _ Hne). cbn [orb lookupVariable].
      destruct (JS.eqb k other) eqn:Hother.
      * apply eqb_true in Hother as ->. now rewrite (eqb_neq _ _ Hne).
      * exact IH.
Qed.

(** [addVariable], on the own keys of the bag: every other key reads
    what it read before.  A key already there keeps its place and reads
    the new value.  A new key reads the new value and goes last, unless
    it is an array index, which goes after the smaller array indices and
    before everything else, or [__proto__], for which the own keys stay
    as they were.  The keys stay distinct. *)
Theorem addVariable_lookup (key : jsstring) (value : JSValue) (variables : VariableBag) :
  (forall other, other <> key ->
     lookupVariable other (addVariable key value variables)
     = lookupVariable other variables) /\
  (existsb (JS.eqb key) (keys variables) = true ->
     lookupVariable key (addVariable key value variables) = Some value /\
     keys (addVariable key value variables) = keys variables) /\
  (existsb (JS.eqb key) (keys variables) = false ->
     if JS.eqb key (js "__proto__") then addVariable key value variables = variables
     else
       lookupVariable key (addVariable key value variables) = Some value /\
       exists before after,
         variables = before ++ after /\
         addVariable key value variables = before ++ (key, value) :: after /\
         match arrayIndex key with
         | None => after = []
         | Some n =>
             Forall (fun kv : jsstring * JSValue =>
                       exists m, arrayIndex kv.1 = Some m /\ (m < n)%N) before /\
             match after with
             | [] => True
             | kv :: _ =>
                 match arrayIndex kv.1 with
                 | Some m => (n <= m)%N
                 | None => True
                 end
             end
         end) /\
  (List.NoDup (keys variables) -> List.NoDup (keys (addVariable key value variables))).
Proof.
  assert (Hnew : existsb (JS.eqb key) (keys variables) = false ->
                 JS.eqb key (js "__proto__") = false ->
                 exists before after,
                   variables = before ++ after /\
                   addVariable key value variables = before ++ (key, value) :: after /\
                   match arrayIndex key with
                   | None => after = []
                   | Some n =>
                       Forall (fun kv : jsstring * JSValue =>
                                 exists m, arrayIndex kv.1 = Some m /\ (m < n)%N) before /\
                       match after with
                       | [] => True
                       | kv :: _ =>
                           match arrayIndex kv.1 with
                           | Some m => (n <= m)%N
                           | None => True
                           end
                       end
                   end).
  { intros Habsent Hproto. unfold addVariable. rewrite Habsent, Hproto.
    destruct (arrayIndex key) as [n|].
    - destruct (insertIndex_split n key value variables)
        as (before & after & Heq & Hins & Hbefore & Hafter).
      exists before, after. auto.
    - exists variables, []. now rewrite app_nil_r. }
  split; [|split; [|split]].
  - intros other Hother.
    destruct (existsb (JS.eqb key) (keys variables)) eqn:Hin.
    + unfold addVariable. rewrite Hin, overwrite_lookup.
      now rewrite eqb_neq by congruence.
    + destruct (JS.eqb key (js "__proto__")) eqn:Hproto.
      * unfold addVariable. now rewrite Hin, Hproto.
      * destruct (Hnew eq_refl eq_refl) as (before & after & Heq & -> & _).
        rewrite Heq, !lookupVariable_app. cbn [lookupVariable].
        now rewrite eqb_neq by congruence.
  - intros Hin. unfold addVariable. rewrite Hin, overwrite_lookup, overwrite_keys.
    now rewrite eqb_refl, Hin.
  - intros Habsent. destruct (JS.eqb key (js "__proto__")) eqn:Hproto.
    + unfold addVariable. now rewrite Habsent, Hproto.
    + destruct (Hnew Habsent eq_refl) as (before & after & Heq & Hadd & Hplace).
      split; [|exists before, after; auto].
      rewrite Hadd, lookupVariable_app.
      assert (Hbefore : lookupVariable key before = None).
      { apply lookupVariable_absent. rewrite Heq in Habsent. unfold keys in *.
        rewrite List.map_app, List.existsb_app in Habsent.
        now apply orb_false_iff in Habsent as [H _]. }
      rewrite Hbefore. cbn [lookupVariable]. now rewrite eqb_refl.
  - intros Hnodup. destruct (existsb (JS.eqb key) (keys variables)) eqn:Hin.
    + unfold addVariable. now rewrite Hin, overwrite_keys.
    + destruct (JS.eqb key (js "__proto__")) eqn:Hproto.
      * unfold addVariable. now rewrite Hin, Hproto.
      * destruct (Hnew eq_refl eq_refl) as (before & after & Heq & -> & _).
        assert (Hnot : ~ In key (keys variables)) by (rewrite <- seen_In, Hin; discriminate).
        rewrite Heq in Hnodup, Hnot. unfold keys in *.
        rewrite List.map_app in *. cbn [map fst].
        apply (Permutation_NoDup (Permutation_middle _ _ _)).
        now constructor.
Qed.

Lemma removeVariable_overwrite (key : jsstring) (value : JSValue) (variables : VariableBag) :
  removeVariable key (overwrite key value variables) = removeVariable key variables.
Proof.
  unfold removeVariable. induction variables as [|[k v] variables IH]; [reflexivity|].
  cbn [overwrite]. destruct (JS.eqb k key) eqn:Hk.
  - cbn [List.filter fst]. now rewrite Hk.
  - cbn [List.filter fst]. rewrite Hk. cbn [negb]. now rewrite IH.
Qed.

Lemma removeVariable_middle (key : jsstring) (value : JSValue) (before after : VariableBag) :
  removeVariable key (before ++ (key, value) :: after) = removeVariable key (before ++ after).
Proof.
  unfold removeVariable. rewrite !List.filter_app. cbn [List.filter fst].
  now rewrite eqb_refl.
Qed.

(** [removeVariable]: the key then reads nothing and is no longer among
    the keys, every other key reads what it read before, the remaining
    keys keep their order, and adding a key and removing it is removing
    it. *)
Theorem removeVariable_lookup (key : jsstring) (variables : VariableBag) :
  lookupVariable key (removeVariable key variables) = None /\
  ~ In key (keys (removeVariable key variables)) /\
  (forall other, other <> key ->
     lookupVariable other (removeVariable key variables)
     = lookupVariable other variables) /\
  keys (removeVariable key variables) =
    List.filter (fun k => negb (JS.eqb k key)) (keys variables) /\
  (forall value,
     removeVariable key (addVariable key value variables)
     = removeVariable key variables).
Proof.
  split; [|split; [|split; [|split]]].
  - induction variables as [|[k v] variables IH]; [reflexivity|].
    cbn [removeVariable List.filter fst]. destruct (JS.eqb k key) eqn:Hk; cbn [negb].
    + exact IH.
    + cbn [lookupVariable]. rewrite Hk. exact IH.
  - unfold keys, removeVariable. rewrite List.in_map_iff. intros ([k v] & <- & Hin).
    apply List.filter_In in Hin as [_ Hk]. cbn [fst] in Hk. now rewrite eqb_refl in Hk.
  - intros other Hother. induction variables as [|[k v] variables IH]; [reflexivity|].
    cbn [removeVariable List.filter fst]. destruct (JS.eqb k key) eqn:Hk; cbn [negb].
    + apply eqb_true in Hk as ->. cbn [lookupVariable]. rewrite eqb_neq by congruence.
      exact IH.
    + cbn [lookupVariable]. destruct (JS.eqb k other); [reflexivity | exact IH].
  - unfold keys, removeVariable.
    induction variables as [|[k v] variables IH]; [reflexivity|].
    cbn [List.filter map fst].
    destruct (JS.eqb k key); cbn [negb map fst]; now rewrite IH.
  - intros value. unfold addVariable.
    destruct (existsb (JS.eqb key) (keys variables)); [apply removeVariable_overwrite|].
    destruct (JS.eqb key (js "__proto__")); [reflexivity|].
    destruct (arrayIndex key) as [n|].
    + destruct (insertIndex_split n key value variables) as (before & after & Heq & -> & _).
      rewrite Heq. apply removeVariable_middle.
    + rewrite (removeVariable_middle key value variables []). now rewrite app_nil_r.
Qed.

End PlaceholderMoreFacts.
